(** * pyEIT distmesh: a shallow embedding of [pyeit/mesh/distmesh.py]

    The mesh generator is numpy code over float64 arrays.  Scalars are the
    kernel's binary64 floats ([PrimFloat.float]), an [N x D] array is a list
    of rows, an index array is a list of [nat], and a numpy call that can
    raise returns a [result].  The distance field [fd] and the density field
    [fh] are pure functions of one point, applied row by row to a batch.
    The collaborators that live outside the file (scipy's Delaunay, numpy's
    sum reduction and random source, and [utils.edge_project]) are the
    fields of the class [World]. *)

From Stdlib Require Import List ZArith Bool Arith Lia Sorted.
From Stdlib Require Import Floats.
From Stdlib Require Uint63.
Import ListNotations.

Set Warnings "-inexact-float".
Set Implicit Arguments.

(** ** Exceptions *)

Inductive exn : Type :=
| ValueError
| IndexError
| ZeroDivisionError
| OverflowError
| QhullError.

Inductive result (A : Type) : Type :=
| Ok (a : A)
| Raise (e : exn).

Arguments Ok {A} a.
Arguments Raise {A} e.

Definition bind {A B : Type} (m : result A) (k : A -> result B) : result B :=
  match m with
  | Ok a => k a
  | Raise e => Raise e
  end.

Notation "x <- m ;; k" := (bind m (fun x => k))
  (at level 61, m at next level, right associativity).
Notation "' pat <- m ;; k" := (bind m (fun x => match x with pat => k end))
  (at level 61, pat pattern, m at next level, right associativity).

Definition raises {A : Type} (m : result A) : Prop :=
  exists e, m = Raise e.

(** ** numpy on lists *)

Module np.

Abbreviation row := (list float).
Abbreviation ndarray := (list (list float)).

Fixpoint zip_with {A B C : Type} (f : A -> B -> C) (xs : list A) (ys : list B)
  : list C :=
  match xs, ys with
  | x :: xs', y :: ys' => f x y :: zip_with f xs' ys'
  | _, _ => []
  end.

(** Broadcasting of two operands along the leading axis: equal lengths
    pair up, a length-one operand is repeated, anything else raises. *)
Definition broadcast {A B C : Type} (f : A -> B -> C)
           (xs : list A) (ys : list B) : result (list C) :=
  if length xs =? length ys then Ok (zip_with f xs ys)
  else match xs, ys with
       | [x], _ => Ok (map (f x) ys)
       | _, [y] => Ok (map (fun x => f x y) xs)
       | _, _ => Raise ValueError
       end.

(** [a[idx]] with an integer index array. *)
Fixpoint take {A : Type} (a : list A) (idx : list nat) : result (list A) :=
  match idx with
  | [] => Ok []
  | i :: idx' =>
      match nth_error a i with
      | Some x => xs <- take a idx' ;; Ok (x :: xs)
      | None => Raise IndexError
      end
  end.

Fixpoint select {A : Type} (a : list A) (mask : list bool) : list A :=
  match a, mask with
  | x :: a', b :: mask' => if b then x :: select a' mask' else select a' mask'
  | _, _ => []
  end.

(** [a[mask]] with a boolean mask, whose length must be that of [a]. *)
Definition compress {A : Type} (a : list A) (mask : list bool)
  : result (list A) :=
  if length a =? length mask then Ok (select a mask) else Raise IndexError.

(** [np.maximum]: [(a >= b || isnan a) ? a : b]. *)
Definition maximum (a b : float) : float :=
  if (b <=? a)%float || is_nan a then a else b.

(** [np.max] of a one-dimensional array; the reduction has no identity. *)
Definition max (a : list float) : result float :=
  match a with
  | [] => Raise ValueError
  | x :: a' => Ok (fold_left maximum a' x)
  end.

Definition any (a : list bool) : bool := existsb (fun b => b) a.

Definition square (x : float) : float := (x * x)%float.

(** Sorted insertion that drops an element already present. *)
Fixpoint insert_uniq {A : Type} (lt : A -> A -> bool) (x : A) (l : list A)
  : list A :=
  match l with
  | [] => [x]
  | y :: l' =>
      if lt x y then x :: l
      else if lt y x then y :: insert_uniq lt x l'
           else l
  end.

(** [np.unique]: the sorted distinct elements. *)
Definition unique_by {A : Type} (lt : A -> A -> bool) (l : list A) : list A :=
  fold_right (insert_uniq lt) [] l.

Definition unique (l : list nat) : list nat := unique_by Nat.ltb l.

Definition pair_ltb (x y : nat * nat) : bool :=
  (fst x <? fst y) || ((fst x =? fst y) && (snd x <? snd y)).

(** [np.unique] on the two-field structured view of a [K x 2] array. *)
Definition unique_rows (l : list (nat * nat)) : list (nat * nat) :=
  unique_by pair_ltb l.

Definition in1d (x : nat) (b : list nat) : bool := existsb (Nat.eqb x) b.

Definition setdiff1d (a b : list nat) : list nat :=
  filter (fun x => negb (in1d x b)) (unique a).

Definition arange (n : nat) : list nat := seq 0 n.

(** Ceiling of a finite float as an integer. *)
Definition ceil (x : float) : option Z :=
  match Prim2SF x with
  | S754_zero _ => Some 0%Z
  | S754_finite s m e =>
      Some (if (0 <=? e)%Z
            then (if s then - (Zpos m * 2 ^ e) else Zpos m * 2 ^ e)%Z
            else (if s then - (Zpos m / 2 ^ (- e))
                  else - ((- Zpos m) / 2 ^ (- e)))%Z)
  | S754_infinity _ | S754_nan => None
  end.

Definition of_nat (i : nat) : float := of_uint63 (Uint63.of_Z (Z.of_nat i)).

(** The length of a float range, [ceil(x)] as a signed 64-bit size: NaN
    gives no length, and a value outside the range overflows. *)
Definition range_length (x : float) : result nat :=
  match ceil x with
  | None => if is_nan x then Raise ValueError else Raise OverflowError
  | Some len =>
      if ((len <? - 2 ^ 63) || (2 ^ 63 - 1 <? len))%Z then Raise OverflowError
      else Ok (Z.to_nat len)
  end.

(** [np.arange(start, stop, step)] on Python floats: the length is
    [ceil((stop - start) / step)], a zero step being a division by zero;
    the first two entries are [start] and [start + step], and entry
    [i >= 2] is [start + i * delta] with [delta = (start + step) - start]. *)
Definition arange_float (start stop step : float) : result (list float) :=
  if (step =? 0)%float then Raise ZeroDivisionError
  else
    len <- range_length ((stop - start) / step)%float ;;
    let next := (start + step)%float in
    let delta := (next - start)%float in
    Ok (map (fun i => match i with
                      | 0 => start
                      | 1 => next
                      | _ => (start + of_nat i * delta)%float
                      end)
            (seq 0 len)).

(** [itertools.combinations(l, 2)]. *)
Fixpoint combinations2 (l : list nat) : list (nat * nat) :=
  match l with
  | [] => []
  | x :: l' => map (pair x) l' ++ combinations2 l'
  end.

End np.


(** ** External collaborators *)

Abbreviation point := (list float).

Class World : Type := {
  (** [scipy.spatial.Delaunay(pts).simplices]; a degenerate point set
      raises. *)
  Delaunay : list point -> result (list (list nat));
  (** [np.sum] of a one-dimensional float array (the order in which numpy
      adds the entries is its own). *)
  np_sum : list float -> float;
  (** [utils.edge_project(pts, fd)], row by row. *)
  edge_project : (point -> float) -> point -> point;
  (** The state of numpy's global random generator and
      [np.random.rand(n)]. *)
  rng : Type;
  rand : nat -> rng -> list float * rng
}.

Fixpoint mapM {A B : Type} (f : A -> result B) (l : list A) : result (list B) :=
  match l with
  | [] => Ok []
  | x :: l' => y <- f x ;; ys <- mapM f l' ;; Ok (y :: ys)
  end.

Fixpoint alter {A : Type} (f : A -> A) (i : nat) (l : list A) : list A :=
  match l, i with
  | [], _ => []
  | x :: l', 0 => f x :: l'
  | x :: l', S i' => x :: alter f i' l'
  end.

Definition vsub (a b : point) : point := np.zip_with PrimFloat.sub a b.
Definition vadd (a b : point) : point := np.zip_with PrimFloat.add a b.
Definition vscale (c : float) (a : point) : point := map (PrimFloat.mul c) a.

(** [np.inf * np.ones((n, d))]. *)
Definition inf_ones (n d : nat) : np.ndarray :=
  repeat (repeat (infinity * 1)%float d) n.

(** Modelled from the spec: [utils.dist], missing from the sources, is the
    Euclidean length of each row of a batch of vectors: the square root of
    the sum of the squared components. *)
Definition dist {W : World} (v : point) : float :=
  PrimFloat.sqrt (np_sum (map np.square v)).

(** [bbox[i][j]] on a nested list. *)
Definition item (bbox : np.ndarray) (i j : nat) : result float :=
  match nth_error bbox i with
  | Some r => match nth_error r j with
              | Some x => Ok x
              | None => Raise IndexError
              end
  | None => Raise IndexError
  end.

(** Rows of the [xy] meshgrid of [xs] and [ys], ravelled: the row index runs
    over [ys], the column index over [xs]. *)
Definition bbox2d (h0 : float) (bbox : np.ndarray) : result np.ndarray :=
  x0 <- item bbox 0 0 ;;
  x1 <- item bbox 1 0 ;;
  xs <- np.arange_float x0 x1 h0 ;;
  y0 <- item bbox 0 1 ;;
  y1 <- item bbox 1 1 ;;
  ys <- np.arange_float y0 y1 (h0 * PrimFloat.sqrt 3 / 2)%float ;;
  Ok (concat
        (map (fun iy =>
                map (fun x => [if Nat.odd (fst iy) then (x + h0 / 2)%float else x;
                               snd iy]) xs)
             (combine (seq 0 (length ys)) ys))).

Definition bbox3d (h0 : float) (bbox : np.ndarray) : result np.ndarray :=
  x0 <- item bbox 0 0 ;;
  x1 <- item bbox 1 0 ;;
  xs <- np.arange_float x0 x1 h0 ;;
  y0 <- item bbox 0 1 ;;
  y1 <- item bbox 1 1 ;;
  ys <- np.arange_float y0 y1 h0 ;;
  z0 <- item bbox 0 2 ;;
  z1 <- item bbox 1 2 ;;
  zs <- np.arange_float z0 z1 h0 ;;
  Ok (concat
        (map (fun y => concat (map (fun x => map (fun z => [x; y; z]) zs) xs))
             ys)).

Definition remove_duplicate_nodes {W : World}
           (p pfix : np.ndarray) (geps : float) : np.ndarray :=
  fold_left (fun p row => filter (fun q => geps <? dist (vsub q row))%float p)
            pfix p.

(** [np.shape(bbox)[1]]. *)
Definition shape1 (bbox : np.ndarray) : result nat :=
  match bbox with
  | [] => Raise IndexError
  | r :: rest =>
      if forallb (fun r' => length r' =? length r) rest
      then Ok (length r)
      else Raise ValueError
  end.

Definition default_bbox : np.ndarray := [[-1; -1]; [1; 1]]%float.

(** ** Array operations of the mesh generator *)

(** [np.mean(verts, axis=0)] of the vertices of one simplex, for points
    of [d] columns. *)
Definition centroid {W : World} (d : nat) (verts : np.ndarray) : point :=
  map (fun c => (np_sum (map (fun v => nth c v 0%float) verts)
                 / np.of_nat (length verts))%float)
      (seq 0 d).

Definition width (pts : np.ndarray) : nat :=
  match pts with
  | [] => 0
  | r :: _ => length r
  end.

(** [pold[:] = p[:]]: the right-hand side is broadcast to the shape of
    the target. *)
Definition assign_rows (target value : np.ndarray) : result np.ndarray :=
  if length value =? length target then Ok value
  else match value with
       | [r] => Ok (repeat r (length target))
       | _ => Raise ValueError
       end.

(** [t[:, edge_combinations].reshape((-1, 2))]. *)
Definition edges_of (combos : list (nat * nat)) (simplex : list nat)
  : result (list (nat * nat)) :=
  mapM (fun ij =>
          match nth_error simplex (fst ij), nth_error simplex (snd ij) with
          | Some a, Some b => Ok (a, b)
          | _, _ => Raise IndexError
          end) combos.

Definition sort_pair (b : nat * nat) : nat * nat :=
  if snd b <? fst b then (snd b, fst b) else b.

(** One entry of the sparse matrix: [Ftot[r, c] += v]. *)
Definition accumulate (n d : nat) (M : result np.ndarray)
           (e : nat * nat * float) : result np.ndarray :=
  M' <- M ;;
  let '(r, c, v) := e in
  if (r <? n) && (c <? d)
  then Ok (alter (alter (fun x => x + v)%float c) r M')
  else Raise ValueError.

(** [csr_matrix((data, [rows, cols]), shape=(n, d)).toarray()]: the three
    arrays must have one length, every index must fit the shape, and
    entries at one location are added up in the order of [data]. *)
Definition csr_toarray (data : list float) (rows cols : list nat)
           (n d : nat) : result np.ndarray :=
  if (length data =? length rows) && (length data =? length cols)
  then fold_left (accumulate n d)
                 (combine (combine rows cols) data)
                 (Ok (repeat (repeat 0%float d) n))
  else Raise ValueError.

(** [Ftot[0:k] = 0]. *)
Definition zero_rows (k : nat) (Ftot : np.ndarray) : np.ndarray :=
  map (map (fun _ => 0%float)) (firstn k Ftot) ++ skipn k Ftot.

(** [p += x]: [x] is broadcast to the shape of [p]. *)
Definition iadd (p x : np.ndarray) : result np.ndarray :=
  if length x =? length p then Ok (np.zip_with vadd p x)
  else match x with
       | [r] => Ok (map (fun q => vadd q r) p)
       | _ => Raise ValueError
       end.

Module DISTMESH.

Record self : Type := mk {
  fd : point -> float;
  fh : point -> float;
  h0 : float;
  geps : float;
  densityctrlfreq : Z;
  dptol : float;
  ttol : float;
  Fscale : float;
  deltat : float;
  Ndim : nat;
  pfix : np.ndarray;
  nfix : nat;
  N : nat;
  p : np.ndarray;
  pold : np.ndarray;
  edge_combinations : list (nat * nat);
  bars : list (nat * nat);
  t : list (list nat)
}.

(** Field assignments. *)
Definition set_mesh (s : self) (pold' : np.ndarray)
           (bars' : list (nat * nat)) (t' : list (list nat)) : self :=
  mk (fd s) (fh s) (h0 s) (geps s) (densityctrlfreq s) (dptol s) (ttol s)
     (Fscale s) (deltat s) (Ndim s) (pfix s) (nfix s) (N s) (p s)
     pold' (edge_combinations s) bars' t'.

Definition set_points (s : self) (p' : np.ndarray) (N' : nat)
           (pold' : np.ndarray) : self :=
  mk (fd s) (fh s) (h0 s) (geps s) (densityctrlfreq s) (dptol s) (ttol s)
     (Fscale s) (deltat s) (Ndim s) (pfix s) (nfix s) N' p'
     pold' (edge_combinations s) (bars s) (t s).

Definition set_p (s : self) (p' : np.ndarray) : self :=
  set_points s p' (N s) (pold s).

Section Methods.
Context {W : World}.

Definition is_retriangulate (s : self) : result bool :=
  diff <- np.broadcast vsub (p s) (pold s) ;;
  m <- np.max (map dist diff) ;;
  Ok (h0 s * ttol s <? m)%float.

Definition _delaunay (pts : np.ndarray) (fd : point -> float) (geps : float)
  : result (list (list nat)) :=
  tri <- Delaunay pts ;;
  pmid <- mapM (fun simplex =>
                  verts <- np.take pts simplex ;;
                  Ok (centroid (width pts) verts)) tri ;;
  Ok (np.select tri (map (fun c => fd c <? - geps)%float pmid)).

Definition triangulate (s : self) : result self :=
  pold' <- assign_rows (pold s) (p s) ;;
  t' <- _delaunay (p s) (fd s) (geps s) ;;
  per_simplex <- mapM (edges_of (edge_combinations s)) t' ;;
  let bars' := map sort_pair (concat per_simplex) in
  Ok (set_mesh s pold' (np.unique_rows bars') t').

Definition bar_length (s : self)
  : result (list float * list float * np.ndarray) :=
  bars_a <- np.take (p s) (map fst (bars s)) ;;
  bars_b <- np.take (p s) (map snd (bars s)) ;;
  let barvec := np.zip_with vsub bars_a bars_b in
  let L := map dist barvec in
  let hbars :=
    map (fh s)
        (np.zip_with (fun a b => map (fun x => x / 2)%float (vadd a b))
                     bars_a bars_b) in
  let L0 :=
    map (fun h => h * Fscale s
                  * PrimFloat.sqrt (np_sum (map np.square L)
                          / np_sum (map np.square hbars)))%float hbars in
  Ok (L, L0, barvec).

Definition bar_force (s : self) (L L0 : list float) (barvec : np.ndarray)
  : result np.ndarray :=
  F <- np.broadcast (fun l0 l => np.maximum (l0 - l) 0)%float L0 L ;;
  unit <- np.broadcast (fun v l => map (fun x => x / l)%float v) barvec L ;;
  Fvec <- np.broadcast vscale F unit ;;
  let data := map (fun v => v ++ map PrimFloat.opp v) Fvec in
  let rows :=
    if Ndim s =? 2
    then map (fun b => [fst b; fst b; snd b; snd b]) (bars s)
    else map (fun b => [fst b; fst b; fst b; snd b; snd b; snd b]) (bars s) in
  let cols :=
    if Ndim s =? 2
    then map (fun _ => [0; 1; 0; 1]) F
    else map (fun _ => [0; 1; 2; 0; 1; 2]) F in
  Ftot <- csr_toarray (concat data) (concat rows) (concat cols)
                      (N s) (Ndim s) ;;
  Ok (zero_rows (length (pfix s)) Ftot).

Definition density_control (s : self) (L L0 : list float) : result self :=
  ixout <- np.broadcast (fun l0 l => 2 * l <? l0)%float L0 L ;;
  flagged <- np.compress (bars s) ixout ;;
  let ixdel :=
    np.setdiff1d (flat_map (fun b => [fst b; snd b]) flagged)
                 (np.arange (nfix s)) in
  p' <- np.take (p s) (np.setdiff1d (np.arange (N s)) ixdel) ;;
  Ok (set_points s p' (length p') (inf_ones (length p') (Ndim s))).

Definition move_p (s : self) (Ftot : np.ndarray) : result (self * bool) :=
  p1 <- iadd (p s) (map (vscale (deltat s)) Ftot) ;;
  let d := map (fd s) p1 in
  let ix := map (fun x => 0 <? x)%float d in
  let p2 :=
    if 0 <? count_occ bool_dec ix true
    then np.zip_with
           (fun q (b : bool) => if b then vsub q (edge_project (fd s) q) else q)
           p1 ix
    else p1 in
  let ix_interior := map (fun x => x <? - geps s)%float d in
  interior <- np.compress Ftot ix_interior ;;
  let delta_move := map (vscale (deltat s)) interior in
  m <- np.max (map (fun v => dist v / h0 s)%float delta_move) ;;
  Ok (set_p s p2, (m <? dptol s)%float).

Definition __init__ (fd fh : point -> float) (h0 : float)
           (pfix bbox : option np.ndarray) (densityctrlfreq : Z)
           (dptol ttol Fscale deltat : float) (g : rng)
  : result (self * rng) :=
  let geps := (0.001 * h0)%float in
  let bbox := match bbox with None => default_bbox | Some b => b end in
  Ndim <- shape1 bbox ;;
  p <- (if Ndim =? 2 then bbox2d h0 bbox else bbox3d h0 bbox) ;;
  let p := filter (fun x => fd x <? geps)%float p in
  let r0 := map (fun x => 1 / np.square (fh x))%float p in
  let (u, g') := rand (length p) g in
  r0max <- np.max r0 ;;
  selection <- np.broadcast PrimFloat.ltb u
                            (map (fun r => r / r0max)%float r0) ;;
  p <- np.compress p selection ;;
  let pfix := match pfix with None => [] | Some f => f end in
  let p := if 0 <? length pfix
           then pfix ++ remove_duplicate_nodes p pfix geps
           else p in
  s <- triangulate
         (mk fd fh h0 geps densityctrlfreq dptol ttol Fscale deltat
             Ndim pfix (length pfix) (length p) p
             (inf_ones (length p) Ndim)
             (np.combinations2 (seq 0 (Ndim + 1))) [] []) ;;
  Ok (s, g').

End Methods.
End DISTMESH.

(** ** The relaxation driver *)

Section Driver.
Context {W : World}.

(** [(L0 > 2*L).any()]. *)
Definition crowded (L L0 : list float) : result bool :=
  ix <- np.broadcast (fun l0 l => 2 * l <? l0)%float L0 L ;;
  Ok (np.any ix).

(** [i % densityctrlfreq == 0] on Python integers. *)
Definition on_cadence (i freq : Z) : result bool :=
  if (freq =? 0)%Z then Raise ZeroDivisionError
  else Ok (i mod freq =? 0)%Z.

(** The body of [for i in range(maxiter)], for the [n] indices from [i]
    on; [break] and the end of the range both leave the loop. *)
Fixpoint relax (densityctrlfreq : Z) (n : nat) (i : Z) (dm : DISTMESH.self)
  : result DISTMESH.self :=
  match n with
  | 0 => Ok dm
  | S n' =>
      re <- DISTMESH.is_retriangulate dm ;;
      dm <- (if re then DISTMESH.triangulate dm else Ok dm) ;;
      ' (L, L0, barvec) <- DISTMESH.bar_length dm ;;
      due <- on_cadence i densityctrlfreq ;;
      over <- (if due then crowded L L0 else Ok false) ;;
      if over
      then dm <- DISTMESH.density_control dm L L0 ;;
           relax densityctrlfreq n' (i + 1) dm
      else Ftot <- DISTMESH.bar_force dm L L0 barvec ;;
           ' (dm, converge) <- DISTMESH.move_p dm Ftot ;;
           if converge then Ok dm
           else relax densityctrlfreq n' (i + 1) dm
  end.

Definition build (fd fh : point -> float) (pfix bbox : option np.ndarray)
           (h0 : float) (densityctrlfreq : Z)
           (dptol ttol Fscale deltat : float) (maxiter : Z) (g : rng)
  : result (np.ndarray * list (list nat)) :=
  ' (dm, _) <- DISTMESH.__init__ fd fh h0 pfix bbox densityctrlfreq
                                 dptol ttol Fscale deltat g ;;
  dm <- relax densityctrlfreq (Z.to_nat maxiter) 0 dm ;;
  dm <- DISTMESH.triangulate dm ;;
  Ok (DISTMESH.p dm, DISTMESH.t dm).

End Driver.

(** ** Notions used by the statements *)

Section Notions.
Context {W : World}.

(** The bounding-box lattice generated at session construction. *)
Definition lattice (h0 : float) (bbox : option np.ndarray)
  : result np.ndarray :=
  let bbox := match bbox with None => default_bbox | Some b => b end in
  Ndim <- shape1 bbox ;;
  if Ndim =? 2 then bbox2d h0 bbox else bbox3d h0 bbox.

(** The lattice points the distance field keeps, with the gap [geps]. *)
Definition inside (fd : point -> float) (h0 : float) (pts : np.ndarray)
  : np.ndarray :=
  filter (fun x => fd x <? 0.001 * h0)%float pts.

(** The snapshot has one row per point. *)
Definition rows_agree (s : DISTMESH.self) : Prop :=
  length (DISTMESH.pold s) = length (DISTMESH.p s).

(** The stored count [N] is the number of rows of the Point Set. *)
Definition counts_agree (s : DISTMESH.self) : Prop :=
  DISTMESH.N s = length (DISTMESH.p s).

(** The positions right after [p += deltat * Ftot]. *)
Definition moved (s : DISTMESH.self) (Ftot : np.ndarray) : np.ndarray :=
  np.zip_with vadd (DISTMESH.p s)
              (map (vscale (DISTMESH.deltat s)) Ftot).

Definition strictly_interior (s : DISTMESH.self) (q : point) : bool :=
  (DISTMESH.fd s q <? - DISTMESH.geps s)%float.

(** Every index of a simplex or a bar addresses a row of [pts]. *)
Definition valid_simplices (pts : np.ndarray) (t : list (list nat)) : Prop :=
  Forall (Forall (fun i => i < length pts)) t.

Definition valid_bars (pts : np.ndarray) (bars : list (nat * nat)) : Prop :=
  Forall (fun b => fst b < length pts /\ snd b < length pts) bars.

(** The force model in the words of the specification, bar by bar. *)
Definition endpoint (s : DISTMESH.self) (i : nat) : point :=
  nth i (DISTMESH.p s) [].

Definition bar_vector (s : DISTMESH.self) (b : nat * nat) : point :=
  vsub (endpoint s (fst b)) (endpoint s (snd b)).

(** The Euclidean length of a bar. *)
Definition euclidean_length (s : DISTMESH.self) (b : nat * nat) : float :=
  dist (bar_vector s b).

(** The average of the two endpoint coordinates. *)
Definition midpoint (s : DISTMESH.self) (b : nat * nat) : point :=
  map (fun x => x / 2)%float (vadd (endpoint s (fst b)) (endpoint s (snd b))).

(** [L0 = fh(midpoint) * Fscale * sqrt(sum L^2 / sum fh(midpoint)^2)]. *)
Definition desired_length (s : DISTMESH.self) (b : nat * nat) : float :=
  (DISTMESH.fh s (midpoint s b) * DISTMESH.Fscale s
   * PrimFloat.sqrt
       (np_sum (map (fun b' => np.square (euclidean_length s b'))
                    (DISTMESH.bars s))
        / np_sum (map (fun b' => np.square (DISTMESH.fh s (midpoint s b')))
                      (DISTMESH.bars s))))%float.

(** A coordinate below [+inf]: neither NaN nor [+inf]. *)
Definition below_inf (x : float) : bool := (x <? infinity)%float.

End Notions.

(** The fields that no method assigns after construction agree. *)
Definition same_config (s s' : DISTMESH.self) : Prop :=
  DISTMESH.fd s' = DISTMESH.fd s
  /\ DISTMESH.fh s' = DISTMESH.fh s
  /\ DISTMESH.h0 s' = DISTMESH.h0 s
  /\ DISTMESH.geps s' = DISTMESH.geps s
  /\ DISTMESH.ttol s' = DISTMESH.ttol s
  /\ DISTMESH.Ndim s' = DISTMESH.Ndim s
  /\ DISTMESH.pfix s' = DISTMESH.pfix s
  /\ DISTMESH.nfix s' = DISTMESH.nfix s.

(** A boolean order read as a relation. *)
Definition holds {A : Type} (lt : A -> A -> bool) (x y : A) : Prop :=
  lt x y = true.

(** The rows that [density_control] keeps are those of an increasing index
    array. *)
Definition increasing (idx : list nat) : Prop :=
  StronglySorted (holds Nat.ltb) idx.

(** A point with at least one coordinate, all below [+inf]. *)
Definition bounded_point (q : point) : Prop :=
  q <> [] /\ Forall (fun x => below_inf x = true) q.

(** What the statements ask of numpy's sum: adding up infinities gives
    infinity. *)
Definition sums_infinities (W : World) : Prop :=
  forall l : list float,
    l <> [] -> Forall (fun x => x = infinity) l -> np_sum l = infinity.

(** ** Notions of the further statements *)

(** The coordinates one axis of the bounding box contributes:
    [np.arange(bbox[0][j], bbox[1][j], step)]. *)
Definition axis_range (bbox : np.ndarray) (j : nat) (step : float)
  : result (list float) :=
  lo <- item bbox 0 j ;;
  hi <- item bbox 1 j ;;
  np.arange_float lo hi step.

(** A row is farther than [geps] from every fixed point. *)
Definition clear_of {W : World} (pfix : np.ndarray) (geps : float) (q : point)
  : bool :=
  forallb (fun row => geps <? dist (vsub q row))%float pfix.

(** A coordinate that is neither NaN nor infinite. *)
Definition finite_coord (x : float) : bool :=
  ((neg_infinity <? x) && (x <? infinity))%float.

(** What the statements ask of numpy's sum: adding up zeros gives zero. *)
Definition sums_zeros (W : World) : Prop :=
  forall l : list float, Forall (fun x => x = 0%float) l -> np_sum l = 0%float.

(** The bars [density_control] flags: those with [L0 > 2 L]. *)
Definition flagged_bars (s : DISTMESH.self) (L L0 : list float)
  : list (nat * nat) :=
  np.select (DISTMESH.bars s)
            (np.zip_with (fun l0 l => 2 * l <? l0)%float L0 L).

(** An index is an endpoint of one of the bars. *)
Definition endpoint_of (bars : list (nat * nat)) (i : nat) : Prop :=
  exists b, In b bars /\ (fst b = i \/ snd b = i).

(** The stored fixed points are no more than the points. *)
Definition fixed_fit (s : DISTMESH.self) : Prop :=
  DISTMESH.nfix s <= length (DISTMESH.p s).

(** The centroid of a simplex of [pts], and the test [_delaunay] applies to
    it: strictly inside the domain. *)
Definition simplex_centroid {W : World} (pts : np.ndarray) (simplex : list nat)
  : point :=
  centroid (width pts) (map (fun i => nth i pts []) simplex).

Definition keeps_simplex {W : World} (pts : np.ndarray) (fd : point -> float)
           (geps : float) (simplex : list nat) : bool :=
  (fd (simplex_centroid pts simplex) <? - geps)%float.

(** ** A concrete world for closed runs *)

(** Left-to-right accumulation from zero. *)
Definition sum_seq (l : list float) : float := fold_left PrimFloat.add l 0%float.

(** Modelled from the spec: [utils.edge_project], missing from the sources.
    The gradient of the distance field is estimated by symmetric finite
    differences along each coordinate axis with a small fixed step [d_eps],
    and the displacement is the distance value times that gradient. *)
Definition edge_project_fd (d_eps : float) (fd : point -> float) (q : point)
  : point :=
  map (fun c =>
         (fd q * ((fd (alter (fun x => x + d_eps) c q)
                   - fd (alter (fun x => x - d_eps) c q)) / (2 * d_eps)))%float)
      (seq 0 (length q)).

(** Twice the signed area of a planar triangle. *)
Definition orient (a b c : point) : float :=
  match a, b, c with
  | [ax; ay], [bx; by_], [cx; cy] =>
      ((bx - ax) * (cy - ay) - (by_ - ay) * (cx - ax))%float
  | _, _, _ => 0%float
  end.

(** The triangulation of exactly three planar points: the one triangle they
    span, or a failure when they are collinear or not three. *)
Definition triangle_oracle (pts : list point) : result (list (list nat)) :=
  match pts with
  | [a; b; c] =>
      if (orient a b c =? 0)%float then Raise QhullError else Ok [[0; 1; 2]]
  | _ => Raise QhullError
  end.

(** A random source that draws one half each time; its state counts the
    calls. *)
Definition demo : World := {|
  Delaunay := triangle_oracle;
  np_sum := sum_seq;
  edge_project := edge_project_fd 0x1p-20;
  rng := nat;
  rand := fun n g => (repeat 0.5%float n, S g)
|}.

(** The unit disk, [fd = |p| - 1], and the uniform density. *)
Definition circle (q : point) : float := (dist (W := demo) q - 1)%float.
Definition area_uniform (q : point) : float := 1%float.

(** A session whose single point lies outside the unit disk. *)
Definition outside_session : DISTMESH.self :=
  DISTMESH.mk circle area_uniform 1 0.001 30 0.001 0.1 1.2 0.2
              2 [] 0 1 [[2; 0]]%float [[2; 0]]%float
              [(0, 1); (0, 2); (1, 2)] [] [].

(** The three lattice points of the box [[0,0],[2,1]] that lie in the unit
    disk for [h0 = 1], triangulated, with a force scale of 3 and no fixed
    point: every bar is shorter than half its desired length. *)
Definition crowded_session : DISTMESH.self :=
  DISTMESH.mk circle area_uniform 1 0.001 30 0.001 0.1 3 0.2
              2 [] 0 3
              [[0; 0]; [1; 0]; [0.5; 0.8660254037844386]]%float
              [[0; 0]; [1; 0]; [0.5; 0.8660254037844386]]%float
              [(0, 1); (0, 2); (1, 2)]
              [(0, 1); (0, 2); (1, 2)]
              [[0; 1; 2]].

(** A session whose second bar names a point that does not exist. *)
Definition stray_session : DISTMESH.self :=
  DISTMESH.mk circle area_uniform 1 0.001 30 0.001 0.1 1.2 0.2
              2 [] 0 3
              [[0; 0]; [1; 0]; [0.5; 0.8660254037844386]]%float
              [[0; 0]; [1; 0]; [0.5; 0.8660254037844386]]%float
              [(0, 1); (0, 2); (1, 2)]
              [(0, 1); (0, 5)]
              [[0; 1; 2]].

(** * Properties *)

Unset Implicit Arguments.

(** ** The result monad *)

Lemma bind_ok {A B : Type} (m : result A) (k : A -> result B) (b : B) :
  bind m k = Ok b -> exists a, m = Ok a /\ k a = Ok b.
Proof. destruct m as [a|e]; simpl; intros H; [eauto | discriminate]. Qed.

Lemma bind_raise {A B : Type} (m : result A) (k : A -> result B) (e : exn) :
  m = Raise e -> bind m k = Raise e.
Proof. intros ->. reflexivity. Qed.

Ltac bind_inv H :=
  let a := fresh "a" in
  let Ha := fresh "E" in
  apply bind_ok in H; destruct H as (a & Ha & H).

Tactic Notation "bind_as" hyp(H) ident(a) ident(Ha) :=
  apply bind_ok in H; destruct H as (a & Ha & H).

(** ** Lists as arrays *)

Lemma zip_with_length {A B C : Type} (f : A -> B -> C) (xs : list A) (ys : list B) :
  length (np.zip_with f xs ys) = Nat.min (length xs) (length ys).
Proof.
  revert ys. induction xs as [|x xs IH]; intros [|y ys]; simpl; auto.
Qed.

Lemma select_none {A : Type} (a : list A) (mask : list bool) :
  (forall b, In b mask -> b = false) -> np.select a mask = [].
Proof.
  revert mask. induction a as [|x a IH]; intros [|b mask] H; simpl; auto.
  rewrite (H b) by (left; reflexivity). apply IH. intros b' Hb'. apply H. now right.
Qed.

Lemma select_some {A : Type} (a : list A) (mask : list bool) :
  length a = length mask -> In true mask -> np.select a mask <> [].
Proof.
  revert mask. induction a as [|x a IH]; intros [|b mask] Hl Hin; simpl in *;
    try contradiction; try discriminate.
  destruct b; [discriminate|].
  destruct Hin as [Hb|Hin]; [discriminate|]. apply IH; [lia | assumption].
Qed.

Lemma iadd_same_length (p x : np.ndarray) :
  length x = length p -> iadd p x = Ok (np.zip_with vadd p x).
Proof.
  intros H. unfold iadd. rewrite H, Nat.eqb_refl. reflexivity.
Qed.

Lemma moved_length (s : DISTMESH.self) (Ftot : np.ndarray) :
  length Ftot = length (DISTMESH.p s) ->
  length (moved s Ftot) = length Ftot.
Proof.
  intros H. unfold moved. rewrite zip_with_length, length_map, H. lia.
Qed.

(** ** The point updater *)

(** C10. When no point is strictly interior after the position update,
    [move_p] raises at the maximum over an empty array instead of returning
    a convergence flag; when some point is strictly interior it returns
    one. *)
Theorem move_p_needs_interior_point (W : World) (s : DISTMESH.self)
        (Ftot : np.ndarray) :
  length Ftot = length (DISTMESH.p s) ->
  ((forall q, In q (moved s Ftot) -> strictly_interior s q = false) ->
   DISTMESH.move_p s Ftot = Raise ValueError)
  /\ ((exists q, In q (moved s Ftot) /\ strictly_interior s q = true) ->
      exists s' converge, DISTMESH.move_p s Ftot = Ok (s', converge)).
Proof.
  intros Hlen.
  assert (Hmv : length (moved s Ftot) = length Ftot) by now apply moved_length.
  unfold DISTMESH.move_p.
  rewrite iadd_same_length by now rewrite length_map.
  fold (moved s Ftot). cbn [bind].
  set (mask := map (fun x => (x <? - DISTMESH.geps s)%float)
                   (map (DISTMESH.fd s) (moved s Ftot))).
  assert (Hmask : length Ftot = length mask).
  { unfold mask. now rewrite !length_map. }
  unfold np.compress. rewrite Hmask, Nat.eqb_refl. cbn [bind].
  split.
  - intros Hnone. rewrite select_none; [reflexivity|].
    intros b Hb. unfold mask in Hb. rewrite map_map in Hb.
    apply in_map_iff in Hb. destruct Hb as (q & <- & Hq). now apply Hnone.
  - intros (q & Hq & Hint).
    assert (Hne : np.select Ftot mask <> []).
    { apply select_some; [assumption|]. unfold mask. rewrite map_map.
      apply in_map_iff. exists q. split; assumption. }
    destruct (np.select Ftot mask) as [|v vs]; [contradiction|].
    cbn. eauto.
Qed.

Lemma move_p_needs_interior_point_witness :
  DISTMESH.move_p (W := demo) outside_session [[0; 0]]%float = Raise ValueError.
Proof.
  apply (proj1 (move_p_needs_interior_point demo outside_session
                                            [[0; 0]]%float eq_refl)).
  intros q Hq. vm_compute in Hq. destruct Hq as [<-|[]].
  vm_compute. reflexivity.
Defined.

(** ** Sorted, duplicate-free arrays *)

Section Unique.
Variable A : Type.
Variable lt : A -> A -> bool.
Hypothesis lt_irrefl : forall x, lt x x = false.
Hypothesis lt_trans : forall x y z, lt x y = true -> lt y z = true -> lt x z = true.
Hypothesis lt_total : forall x y, lt x y = false -> lt y x = false -> x = y.

Lemma insert_uniq_in (x y : A) (l : list A) :
  In y (np.insert_uniq lt x l) <-> y = x \/ In y l.
Proof.
  induction l as [|z l IH]; simpl.
  - intuition congruence.
  - destruct (lt x z) eqn:Hxz; simpl.
    + intuition congruence.
    + destruct (lt z x) eqn:Hzx; simpl.
      * rewrite IH. intuition congruence.
      * assert (x = z) by now apply lt_total. subst. intuition congruence.
Qed.

Lemma insert_uniq_sorted (x : A) (l : list A) :
  StronglySorted (holds lt) l -> StronglySorted (holds lt) (np.insert_uniq lt x l).
Proof.
  induction 1 as [|z l Hs IH Hz]; simpl.
  - constructor; constructor.
  - destruct (lt x z) eqn:Hxz.
    + constructor; [constructor; assumption|].
      constructor; [exact Hxz|].
      eapply Forall_impl; [|exact Hz]. intros w Hw. unfold holds in *. eauto.
    + destruct (lt z x) eqn:Hzx.
      * constructor; [exact IH|].
        apply Forall_forall. intros w Hw. apply insert_uniq_in in Hw.
        destruct Hw as [->|Hw]; [exact Hzx|].
        rewrite Forall_forall in Hz. now apply Hz.
      * constructor; assumption.
Qed.

Lemma unique_by_in (y : A) (l : list A) :
  In y (np.unique_by lt l) <-> In y l.
Proof.
  unfold np.unique_by. induction l as [|x l IH]; simpl; [tauto|].
  rewrite insert_uniq_in, IH. intuition congruence.
Qed.

Lemma unique_by_sorted (l : list A) : StronglySorted (holds lt) (np.unique_by lt l).
Proof.
  unfold np.unique_by. induction l as [|x l IH]; simpl.
  - constructor.
  - now apply insert_uniq_sorted.
Qed.

Lemma sorted_nodup (l : list A) : StronglySorted (holds lt) l -> NoDup l.
Proof.
  induction 1 as [|z l Hs IH Hz]; constructor; [|exact IH].
  intros Hin. rewrite Forall_forall in Hz. specialize (Hz z Hin).
  unfold holds in Hz. rewrite lt_irrefl in Hz. discriminate.
Qed.

Lemma unique_by_nodup (l : list A) : NoDup (np.unique_by lt l).
Proof. apply sorted_nodup, unique_by_sorted. Qed.

(** A sorted array is its own [np.unique]. *)
Lemma unique_by_sorted_id (l : list A) :
  StronglySorted (holds lt) l -> np.unique_by lt l = l.
Proof.
  unfold np.unique_by. induction 1 as [|z l Hs IH Hz]; simpl; [reflexivity|].
  rewrite IH. destruct l as [|w l]; [reflexivity|]. simpl.
  inversion Hz as [|? ? Hzw _]; subst. unfold holds in Hzw. now rewrite Hzw.
Qed.

End Unique.

Lemma pair_ltb_spec (x y : nat * nat) :
  np.pair_ltb x y = true <->
  fst x < fst y \/ (fst x = fst y /\ snd x < snd y).
Proof.
  unfold np.pair_ltb.
  rewrite orb_true_iff, andb_true_iff, !Nat.ltb_lt, Nat.eqb_eq. tauto.
Qed.

Lemma pair_ltb_irrefl (x : nat * nat) : np.pair_ltb x x = false.
Proof.
  destruct (np.pair_ltb x x) eqn:E; [|reflexivity].
  apply pair_ltb_spec in E. lia.
Qed.

Lemma pair_ltb_trans (x y z : nat * nat) :
  np.pair_ltb x y = true -> np.pair_ltb y z = true -> np.pair_ltb x z = true.
Proof. rewrite !pair_ltb_spec. lia. Qed.

Lemma pair_ltb_total (x y : nat * nat) :
  np.pair_ltb x y = false -> np.pair_ltb y x = false -> x = y.
Proof.
  intros H1 H2.
  assert (N1 : ~ (fst x < fst y \/ (fst x = fst y /\ snd x < snd y))).
  { rewrite <- pair_ltb_spec. congruence. }
  assert (N2 : ~ (fst y < fst x \/ (fst y = fst x /\ snd y < snd x))).
  { rewrite <- pair_ltb_spec. congruence. }
  destruct x, y; simpl in *. f_equal; lia.
Qed.

Lemma ltb_total (x y : nat) : (x <? y) = false -> (y <? x) = false -> x = y.
Proof. rewrite !Nat.ltb_ge. lia. Qed.

Lemma ltb_trans (x y z : nat) :
  (x <? y) = true -> (y <? z) = true -> (x <? z) = true.
Proof. rewrite !Nat.ltb_lt. lia. Qed.

(** ** Indexing *)

Lemma take_ok_valid {A : Type} (a : list A) (idx : list nat) (xs : list A) :
  np.take a idx = Ok xs -> Forall (fun i => i < length a) idx.
Proof.
  revert xs. induction idx as [|i idx IH]; simpl; intros xs H.
  - constructor.
  - destruct (nth_error a i) eqn:E; [|discriminate].
    bind_inv H. constructor; [|eauto].
    apply nth_error_Some. congruence.
Qed.

Lemma take_valid {A : Type} (d : A) (a : list A) (idx : list nat) :
  Forall (fun i => i < length a) idx ->
  np.take a idx = Ok (map (fun i => nth i a d) idx).
Proof.
  induction 1 as [|i idx Hi _ IH]; simpl; [reflexivity|].
  rewrite (nth_error_nth' a d Hi), IH. reflexivity.
Qed.

Lemma mapM_ok {A B : Type} (f : A -> result B) (l : list A) (ys : list B) :
  mapM f l = Ok ys -> Forall2 (fun x y => f x = Ok y) l ys.
Proof.
  revert ys. induction l as [|x l IH]; simpl; intros ys H.
  - injection H as <-. constructor.
  - bind_inv H. bind_inv H. injection H as <-. constructor; auto.
Qed.

Lemma mapM_ok_forall {A B : Type} (f : A -> result B) (P : A -> Prop)
      (l : list A) (ys : list B) :
  mapM f l = Ok ys -> (forall x y, f x = Ok y -> P x) -> Forall P l.
Proof.
  intros H HP. apply mapM_ok in H.
  induction H as [|x y l ys Hxy _ IH]; constructor; eauto.
Qed.

Lemma select_in {A : Type} (a : list A) (mask : list bool) (x : A) :
  In x (np.select a mask) -> In x a.
Proof.
  revert mask. induction a as [|y a IH]; intros [|b mask]; simpl; try tauto.
  destruct b; simpl; intros H; [destruct H|]; eauto.
Qed.

(** ** The triangulation controller *)

Lemma delaunay_inv {W : World} (pts : np.ndarray) (fd : point -> float)
      (geps : float) (t : list (list nat)) :
  DISTMESH._delaunay pts fd geps = Ok t ->
  exists tri, Delaunay pts = Ok tri
              /\ valid_simplices pts tri
              /\ (forall x, In x t -> In x tri).
Proof.
  unfold DISTMESH._delaunay. intros H.
  bind_inv H. bind_inv H. injection H as <-.
  exists a. split; [assumption|]. split.
  - eapply mapM_ok_forall; [exact E0|].
    intros simplex c Hc. bind_inv Hc. eapply take_ok_valid; eassumption.
  - intros x. apply select_in.
Qed.

Lemma triangulate_inv {W : World} (s s' : DISTMESH.self) :
  DISTMESH.triangulate s = Ok s' ->
  exists pold' t' per,
    assign_rows (DISTMESH.pold s) (DISTMESH.p s) = Ok pold'
    /\ DISTMESH._delaunay (DISTMESH.p s) (DISTMESH.fd s) (DISTMESH.geps s) = Ok t'
    /\ mapM (edges_of (DISTMESH.edge_combinations s)) t' = Ok per
    /\ s' = DISTMESH.set_mesh s pold'
              (np.unique_rows (map sort_pair (concat per))) t'.
Proof.
  unfold DISTMESH.triangulate. intros H.
  bind_inv H. bind_inv H. bind_inv H. injection H as <-.
  eauto 10.
Qed.

Lemma sort_pair_le (b : nat * nat) :
  fst (sort_pair b) <= snd (sort_pair b).
Proof.
  unfold sort_pair. destruct (snd b <? fst b) eqn:E; simpl.
  - apply Nat.ltb_lt in E. lia.
  - apply Nat.ltb_ge in E. lia.
Qed.

(** C7. After a retriangulation every index of the Simplex Set addresses a
    row of the current Point Set, and the Bar Set holds every unordered pair
    at most once, the smaller index first. *)
Theorem triangulate_indices_and_bars (W : World) (s s' : DISTMESH.self) :
  DISTMESH.triangulate s = Ok s' ->
  DISTMESH.p s' = DISTMESH.p s
  /\ valid_simplices (DISTMESH.p s') (DISTMESH.t s')
  /\ NoDup (DISTMESH.bars s')
  /\ Forall (fun b => fst b <= snd b) (DISTMESH.bars s')
  /\ (forall a b, In (a, b) (DISTMESH.bars s') ->
                  In (b, a) (DISTMESH.bars s') -> a = b).
Proof.
  intros H. apply triangulate_inv in H.
  destruct H as (pold' & t' & per & _ & Hd & _ & ->). simpl.
  assert (Hle : Forall (fun b => fst b <= snd b)
                       (np.unique_rows (map sort_pair (concat per)))).
  { apply Forall_forall. intros b Hb.
    unfold np.unique_rows in Hb.
    apply (proj1 (unique_by_in _ _ pair_ltb_total _ _)) in Hb.
    apply in_map_iff in Hb. destruct Hb as (b0 & <- & _). apply sort_pair_le. }
  split; [reflexivity|]. split; [|split; [|split]].
  - apply delaunay_inv in Hd. destruct Hd as (tri & _ & Hv & Hsub).
    unfold valid_simplices in *. rewrite Forall_forall in *. auto.
  - apply (unique_by_nodup _ _ pair_ltb_irrefl pair_ltb_trans pair_ltb_total).
  - exact Hle.
  - intros a b Hab Hba. rewrite Forall_forall in Hle.
    apply Hle in Hab. apply Hle in Hba. simpl in *. lia.
Qed.

(** ** Fields that no method assigns after construction *)

Lemma same_config_refl (s : DISTMESH.self) : same_config s s.
Proof. repeat split. Qed.

Lemma same_config_trans (s1 s2 s3 : DISTMESH.self) :
  same_config s1 s2 -> same_config s2 s3 -> same_config s1 s3.
Proof. unfold same_config. intuition congruence. Qed.

Lemma triangulate_config {W : World} (s s' : DISTMESH.self) :
  DISTMESH.triangulate s = Ok s' -> same_config s s'.
Proof.
  intros H. apply triangulate_inv in H.
  destruct H as (? & ? & ? & _ & _ & _ & ->). repeat split.
Qed.

Lemma density_control_config (s s' : DISTMESH.self)
      (L L0 : list float) :
  DISTMESH.density_control s L L0 = Ok s' -> same_config s s'.
Proof.
  unfold DISTMESH.density_control. intros H.
  bind_inv H. bind_inv H. bind_inv H. injection H as <-. repeat split.
Qed.

Lemma move_p_config {W : World} (s s' : DISTMESH.self) (Ftot : np.ndarray)
      (c : bool) :
  DISTMESH.move_p s Ftot = Ok (s', c) -> same_config s s'.
Proof.
  unfold DISTMESH.move_p. intros H.
  bind_inv H. bind_inv H. bind_inv H. injection H as <- _. repeat split.
Qed.

(** One pass of the loop body, as the driver composes it. *)
Lemma relax_step {W : World} (freq : Z) (n : nat) (i : Z)
      (dm out : DISTMESH.self) :
  relax freq (S n) i dm = Ok out ->
  exists re dm1 L L0 barvec,
    DISTMESH.is_retriangulate dm = Ok re
    /\ (if re then DISTMESH.triangulate dm else Ok dm) = Ok dm1
    /\ DISTMESH.bar_length dm1 = Ok (L, L0, barvec)
    /\ ((exists dm2, DISTMESH.density_control dm1 L L0 = Ok dm2
                     /\ relax freq n (i + 1) dm2 = Ok out)
        \/ (exists Ftot dm2 converge,
               DISTMESH.bar_force dm1 L L0 barvec = Ok Ftot
               /\ DISTMESH.move_p dm1 Ftot = Ok (dm2, converge)
               /\ (if converge then Ok dm2 else relax freq n (i + 1) dm2)
                  = Ok out)).
Proof.
  cbn [relax]. intros H.
  bind_as H re Hre. bind_as H dm1 Hdm1. bind_as H r Hr.
  destruct r as [[L L0] barvec].
  bind_as H due Hdue. bind_as H over Hover.
  exists re, dm1, L, L0, barvec. repeat (split; [assumption|]).
  destruct over.
  - left. bind_as H dm2 Hdm2. eauto.
  - right. bind_as H Ftot HF. bind_as H r Hmv.
    destruct r as [dm2 converge]. eauto 10.
Qed.

Lemma relax_config {W : World} (freq : Z) (n : nat) :
  forall (i : Z) (dm out : DISTMESH.self),
    relax freq n i dm = Ok out -> same_config dm out.
Proof.
  induction n as [|n IH]; intros i dm out H.
  - injection H as <-. apply same_config_refl.
  - apply relax_step in H.
    destruct H as (re & dm1 & L & L0 & barvec & _ & Ht & _ & Hrest).
    assert (C1 : same_config dm dm1).
    { destruct re.
      - now apply triangulate_config.
      - injection Ht as <-. apply same_config_refl. }
    destruct Hrest as [(dm2 & Hd & Hr) | (Ftot & dm2 & c & _ & Hm & Hr)].
    + apply density_control_config in Hd. apply IH in Hr.
      eauto using same_config_trans.
    + apply move_p_config in Hm. destruct c.
      * injection Hr as <-. eauto using same_config_trans.
      * apply IH in Hr. eauto using same_config_trans.
Qed.

(** What the constructor hands to its closing [triangulate]. *)
Lemma init_inv {W : World} (fd fh : point -> float) (h0 : float)
      (pfix bbox : option np.ndarray) (freq : Z)
      (dptol ttol Fscale deltat : float) (g g' : rng) (s : DISTMESH.self) :
  DISTMESH.__init__ fd fh h0 pfix bbox freq dptol ttol Fscale deltat g
  = Ok (s, g') ->
  exists s0 pts,
    DISTMESH.triangulate s0 = Ok s
    /\ lattice h0 bbox = Ok pts
    /\ inside fd h0 pts <> []
    /\ DISTMESH.fd s0 = fd
    /\ DISTMESH.h0 s0 = h0
    /\ DISTMESH.geps s0 = (0.001 * h0)%float
    /\ DISTMESH.ttol s0 = ttol
    /\ DISTMESH.pfix s0 = match pfix with None => [] | Some f => f end
    /\ DISTMESH.nfix s0 = length (DISTMESH.pfix s0)
    /\ DISTMESH.N s0 = length (DISTMESH.p s0)
    /\ DISTMESH.pold s0 = inf_ones (length (DISTMESH.p s0)) (DISTMESH.Ndim s0)
    /\ firstn (DISTMESH.nfix s0) (DISTMESH.p s0) = DISTMESH.pfix s0.
Proof.
  unfold DISTMESH.__init__, lattice, inside. intros H.
  bind_as H Ndim HNdim. rewrite HNdim. cbn [bind].
  bind_as H pts Hpts. rewrite Hpts.
  destruct (rand _ g) as [u g1].
  bind_as H r0max Hmax. bind_as H selection Hsel. bind_as H kept Hkept.
  bind_as H s1 Htri. injection H as <- <-.
  eexists. exists pts. split; [exact Htri|]. cbn.
  split; [reflexivity|]. split.
  { intros Hnil. rewrite Hnil in Hmax. discriminate. }
  repeat (split; [reflexivity|]).
  destruct (match pfix with Some f => f | None => [] end) as [|r pf];
    [reflexivity|].
  match goal with
  | |- firstn ?n ?l = ?r =>
      change l with (r ++ remove_duplicate_nodes kept r (0.001 * h0)%float)
  end.
  rewrite firstn_app, firstn_all, Nat.sub_diag. simpl. now rewrite app_nil_r.
Qed.

(** ** The relaxation driver *)

(** C2. Whatever ends the loop, [build] closes with one retriangulation:
    the returned Simplex Set is the triangulation (Delaunay simplices with
    an interior centroid) of the returned Point Set. *)
Theorem build_returns_final_triangulation (W : World)
        (fd fh : point -> float) (pfix bbox : option np.ndarray) (h0 : float)
        (freq : Z) (dptol ttol Fscale deltat : float) (maxiter : Z) (g : rng)
        (p : np.ndarray) (t : list (list nat)) :
  build fd fh pfix bbox h0 freq dptol ttol Fscale deltat maxiter g = Ok (p, t) ->
  exists dm0 g' dm,
    DISTMESH.__init__ fd fh h0 pfix bbox freq dptol ttol Fscale deltat g
    = Ok (dm0, g')
    /\ relax freq (Z.to_nat maxiter) 0 dm0 = Ok dm
    /\ DISTMESH.p dm = p
    /\ DISTMESH._delaunay p fd (0.001 * h0)%float = Ok t.
Proof.
  unfold build. intros H.
  bind_inv H. destruct a as [dm0 g']. bind_inv H. bind_inv H.
  injection H as <- <-.
  exists dm0, g', a. split; [assumption|]. split; [assumption|].
  pose proof (relax_config _ _ _ _ _ E0) as C.
  apply init_inv in E.
  destruct E as (s0 & pts & Ht & _ & _ & Hfd & _ & Hg & _).
  apply triangulate_config in Ht.
  destruct C as (C1 & _ & _ & C4 & _). destruct Ht as (T1 & _ & _ & T4 & _).
  apply triangulate_inv in E1.
  destruct E1 as (pold' & t' & per & _ & Hd & _ & ->). simpl.
  split; [reflexivity|].
  rewrite <- Hd. f_equal; congruence.
Qed.

(** C9. Two runs of [build] on identical inputs whose random sources give
    the same draws return the same Point Set and the same Simplex Set: the
    rejection step of the sampler is the only reader of the random source. *)
Theorem build_deterministic (W : World)
        (fd fh : point -> float) (pfix bbox : option np.ndarray) (h0 : float)
        (freq : Z) (dptol ttol Fscale deltat : float) (maxiter : Z)
        (g1 g2 : rng) :
  (forall n, fst (rand n g1) = fst (rand n g2)) ->
  build fd fh pfix bbox h0 freq dptol ttol Fscale deltat maxiter g1
  = build fd fh pfix bbox h0 freq dptol ttol Fscale deltat maxiter g2.
Proof.
  intros Hdraw. unfold build, DISTMESH.__init__.
  destruct (shape1 _) as [Ndim|e]; cbn [bind]; [|reflexivity].
  destruct (if Ndim =? 2 then _ else _) as [pts|e]; cbn [bind]; [|reflexivity].
  match goal with
  | |- context [rand ?n g1] =>
      specialize (Hdraw n);
      destruct (rand n g1) as [u1 g1'], (rand n g2) as [u2 g2']
  end.
  simpl in Hdraw. subst u2.
  destruct (np.max _) as [r0max|e]; cbn [bind]; [|reflexivity].
  destruct (np.broadcast _ _ _) as [selection|e]; cbn [bind]; [|reflexivity].
  destruct (np.compress _ _) as [p|e]; cbn [bind]; [|reflexivity].
  destruct (DISTMESH.triangulate _) as [s|e]; cbn [bind]; reflexivity.
Qed.

(** ** The force model *)

Lemma zip_with_map {A B C D : Type} (f : B -> C -> D) (g : A -> B) (h : A -> C)
      (l : list A) :
  np.zip_with f (map g l) (map h l) = map (fun x => f (g x) (h x)) l.
Proof. induction l as [|x l IH]; simpl; [reflexivity | now rewrite IH]. Qed.

Lemma valid_bars_fst (pts : np.ndarray) (bars : list (nat * nat)) :
  valid_bars pts bars -> Forall (fun i => i < length pts) (map fst bars).
Proof.
  unfold valid_bars. rewrite !Forall_forall. intros H i Hi.
  apply in_map_iff in Hi. destruct Hi as (b & <- & Hb). now apply H.
Qed.

Lemma valid_bars_snd (pts : np.ndarray) (bars : list (nat * nat)) :
  valid_bars pts bars -> Forall (fun i => i < length pts) (map snd bars).
Proof.
  unfold valid_bars. rewrite !Forall_forall. intros H i Hi.
  apply in_map_iff in Hi. destruct Hi as (b & <- & Hb). now apply H.
Qed.

(** C3. For every Point Set and every Bar Set over it, [bar_length] returns
    for each bar its Euclidean length [L] and the desired length
    [L0 = fh(midpoint) * Fscale * sqrt(sum L^2 / sum fh(midpoint)^2)], the
    sums ranging over all bars and the midpoint being the average of the two
    endpoints. *)
Theorem bar_length_formula (W : World) (s : DISTMESH.self) :
  valid_bars (DISTMESH.p s) (DISTMESH.bars s) ->
  DISTMESH.bar_length s
  = Ok (map (euclidean_length s) (DISTMESH.bars s),
        map (desired_length s) (DISTMESH.bars s),
        map (bar_vector s) (DISTMESH.bars s)).
Proof.
  intros Hv. unfold DISTMESH.bar_length.
  rewrite (take_valid [] _ _ (valid_bars_fst _ _ Hv)).
  rewrite (take_valid [] _ _ (valid_bars_snd _ _ Hv)).
  cbn [bind]. rewrite !map_map, !zip_with_map.
  unfold desired_length, euclidean_length, bar_vector, midpoint, endpoint.
  rewrite !map_map. reflexivity.
Qed.

Lemma take_length {A : Type} (a : list A) (idx : list nat) (xs : list A) :
  np.take a idx = Ok xs -> length xs = length idx.
Proof.
  revert xs. induction idx as [|i idx IH]; simpl; intros xs H.
  - now injection H as <-.
  - destruct (nth_error a i); [|discriminate].
    bind_as H xs' Hxs. injection H as <-. simpl. f_equal. now apply IH.
Qed.

(** [bar_length] returns one length and one desired length per bar. *)
Lemma bar_length_lengths {W : World} (s : DISTMESH.self) (L L0 : list float)
      (barvec : np.ndarray) :
  DISTMESH.bar_length s = Ok (L, L0, barvec) ->
  length L = length (DISTMESH.bars s) /\ length L0 = length (DISTMESH.bars s).
Proof.
  unfold DISTMESH.bar_length. intros H.
  bind_as H bars_a Ha. bind_as H bars_b Hb. injection H as <- <- _.
  apply take_length in Ha. apply take_length in Hb.
  rewrite !length_map, !zip_with_length, Ha, Hb, !length_map. lia.
Qed.

(** ** The density controller *)

Lemma in1d_spec (x : nat) (b : list nat) : np.in1d x b = true <-> In x b.
Proof.
  unfold np.in1d. rewrite existsb_exists. split.
  - intros (y & Hy & E). apply Nat.eqb_eq in E. now subst.
  - intros H. exists x. split; [assumption | apply Nat.eqb_refl].
Qed.

Lemma unique_in (x : nat) (l : list nat) : In x (np.unique l) <-> In x l.
Proof. apply (unique_by_in _ _ ltb_total). Qed.

Lemma setdiff1d_in (x : nat) (a b : list nat) :
  In x (np.setdiff1d a b) <-> In x a /\ ~ In x b.
Proof.
  unfold np.setdiff1d. rewrite filter_In, unique_in, negb_true_iff.
  pose proof (in1d_spec x b) as Hb.
  destruct (np.in1d x b); split; intros [H1 H2]; split; auto.
  - discriminate.
  - exfalso. apply H2, Hb. reflexivity.
  - intros H. apply Hb in H. discriminate.
Qed.

Lemma seq_sorted (a n : nat) : StronglySorted (holds Nat.ltb) (seq a n).
Proof.
  revert a. induction n as [|n IH]; intros a; simpl; constructor; [apply IH|].
  apply Forall_forall. intros y Hy. apply in_seq in Hy. apply Nat.ltb_lt. lia.
Qed.

Lemma unique_arange (n : nat) : np.unique (np.arange n) = seq 0 n.
Proof.
  apply (unique_by_sorted_id _ Nat.ltb), seq_sorted.
Qed.

Lemma filter_sorted {A : Type} (R : A -> A -> Prop) (f : A -> bool)
      (l : list A) :
  StronglySorted R l -> StronglySorted R (filter f l).
Proof.
  induction 1 as [|x l Hs IH Hx]; simpl; [constructor|].
  destruct (f x); [|exact IH]. constructor; [exact IH|].
  rewrite Forall_forall in *. intros y Hy. apply filter_In in Hy. now apply Hx.
Qed.

Lemma filter_all {A : Type} (f : A -> bool) (l : list A) :
  (forall x, In x l -> f x = true) -> filter f l = l.
Proof.
  induction l as [|x l IH]; simpl; intros H; [reflexivity|].
  rewrite (H x) by now left. f_equal. apply IH. intros y Hy. apply H. now right.
Qed.

Lemma map_nth_seq {A : Type} (d : A) (l : list A) (k : nat) :
  k <= length l -> map (fun i => nth i l d) (seq 0 k) = firstn k l.
Proof.
  revert l. induction k as [|k IH]; intros l Hk; [reflexivity|].
  destruct l as [|x l]; [simpl in Hk; lia|].
  simpl. f_equal. rewrite <- seq_shift, map_map. apply IH. simpl in Hk. lia.
Qed.

Lemma select_nth {A : Type} (a : list A) (mask : list bool) (k : nat) (x : A) :
  nth_error a k = Some x -> nth_error mask k = Some true ->
  In x (np.select a mask).
Proof.
  revert mask k. induction a as [|y a IH]; intros [|b mask] [|k]; simpl;
    try discriminate.
  - intros [= ->] [= ->]. now left.
  - intros Ha Hm. destruct b; [right|]; eauto.
Qed.

Lemma zip_with_nth {A B C : Type} (f : A -> B -> C) (xs : list A) (ys : list B)
      (k : nat) (x : A) (y : B) :
  nth_error xs k = Some x -> nth_error ys k = Some y ->
  nth_error (np.zip_with f xs ys) k = Some (f x y).
Proof.
  revert ys k. induction xs as [|x' xs IH]; intros [|y' ys] [|k]; simpl;
    try discriminate.
  - now intros [= ->] [= ->].
  - apply IH.
Qed.

Lemma broadcast_same_length {A B C : Type} (f : A -> B -> C)
      (xs : list A) (ys : list B) :
  length xs = length ys -> np.broadcast f xs ys = Ok (np.zip_with f xs ys).
Proof.
  intros H. unfold np.broadcast. rewrite H, Nat.eqb_refl. reflexivity.
Qed.

(** C5. When some bar has [L0 > 2 L] and both of its endpoints are free,
    [density_control] drops both endpoints (hence at least one) from the
    Point Set, and keeps every row with an index below [nfix]: the first
    [nfix] rows are the same before and after. *)
Theorem density_control_removes_crowded (s : DISTMESH.self)
        (L L0 : list float) (k a b : nat) (l l0 : float) :
  counts_agree s ->
  length L = length (DISTMESH.bars s) ->
  length L0 = length (DISTMESH.bars s) ->
  nth_error (DISTMESH.bars s) k = Some (a, b) ->
  nth_error L k = Some l ->
  nth_error L0 k = Some l0 ->
  (2 * l <? l0)%float = true ->
  DISTMESH.nfix s <= a ->
  DISTMESH.nfix s <= b ->
  exists keep s',
    DISTMESH.density_control s L L0 = Ok s'
    /\ np.take (DISTMESH.p s) keep = Ok (DISTMESH.p s')
    /\ increasing keep
    /\ ~ In a keep
    /\ ~ In b keep
    /\ (forall i, i < DISTMESH.nfix s -> i < length (DISTMESH.p s) -> In i keep)
    /\ firstn (DISTMESH.nfix s) (DISTMESH.p s')
       = firstn (DISTMESH.nfix s) (DISTMESH.p s)
    /\ DISTMESH.nfix s' = DISTMESH.nfix s.
Proof.
  intros HN HL HL0 Hbar Hl Hl0 Hcrowd Ha Hb. unfold counts_agree in HN.
  unfold DISTMESH.density_control.
  rewrite broadcast_same_length by congruence. cbn [bind].
  set (ixout := np.zip_with (fun l0 l => (2 * l <? l0)%float) L0 L).
  assert (Hix : length (DISTMESH.bars s) = length ixout).
  { unfold ixout. rewrite zip_with_length. lia. }
  unfold np.compress. rewrite Hix, Nat.eqb_refl. cbn [bind].
  set (flagged := np.select (DISTMESH.bars s) ixout).
  assert (Hflag : In (a, b) flagged).
  { apply select_nth with (k := k); [assumption|].
    unfold ixout. rewrite (zip_with_nth _ _ _ _ _ _ Hl0 Hl). now rewrite Hcrowd. }
  set (ixdel := np.setdiff1d (flat_map (fun b0 => [fst b0; snd b0]) flagged)
                             (np.arange (DISTMESH.nfix s))).
  assert (Hdel : forall i, In i ixdel -> DISTMESH.nfix s <= i).
  { intros i Hi. apply setdiff1d_in in Hi. destruct Hi as [_ Hi].
    unfold np.arange in Hi. rewrite in_seq in Hi. lia. }
  assert (Hends : In a ixdel /\ In b ixdel).
  { split; apply setdiff1d_in; (split;
      [apply in_flat_map; exists (a, b); simpl; auto
      | unfold np.arange; rewrite in_seq; lia]). }
  set (keep := np.setdiff1d (np.arange (DISTMESH.N s)) ixdel).
  assert (Hkeep : forall i, In i keep <-> i < length (DISTMESH.p s) /\ ~ In i ixdel).
  { intros i. unfold keep. rewrite setdiff1d_in. unfold np.arange.
    rewrite in_seq, HN. intuition lia. }
  assert (Hvalid : Forall (fun i => i < length (DISTMESH.p s)) keep).
  { apply Forall_forall. intros i Hi. now apply Hkeep in Hi. }
  rewrite (take_valid [] _ _ Hvalid). cbn [bind].
  exists keep. eexists. split; [reflexivity|]. cbn.
  split; [exact (take_valid [] _ _ Hvalid)|]. split.
  { unfold increasing, keep, np.setdiff1d. rewrite unique_arange.
    apply filter_sorted, seq_sorted. }
  split; [rewrite Hkeep; tauto|]. split; [rewrite Hkeep; tauto|]. split.
  { intros i Hi HiN. apply Hkeep. split; [assumption|].
    intros Hin. apply Hdel in Hin. lia. }
  split; [|reflexivity].
  unfold keep, np.setdiff1d. rewrite unique_arange, HN.
  set (f := fun x => negb (np.in1d x ixdel)).
  assert (Hf : forall i, i < DISTMESH.nfix s -> f i = true).
  { intros i Hi. unfold f. apply negb_true_iff.
    destruct (np.in1d i ixdel) eqn:E; [|reflexivity].
    apply in1d_spec, Hdel in E. lia. }
  destruct (Nat.le_gt_cases (DISTMESH.nfix s) (length (DISTMESH.p s))) as [Hle|Hgt].
  - replace (length (DISTMESH.p s))
      with (DISTMESH.nfix s + (length (DISTMESH.p s) - DISTMESH.nfix s)) at 1
      by lia.
    rewrite seq_app, filter_app, map_app.
    rewrite (filter_all f (seq 0 (DISTMESH.nfix s))).
    2:{ intros i Hi. apply in_seq in Hi. apply Hf. lia. }
    rewrite (map_nth_seq [] _ _ Hle).
    rewrite firstn_app, length_firstn, Nat.min_l by assumption.
    rewrite Nat.sub_diag, firstn_O, app_nil_r.
    apply firstn_all2. rewrite length_firstn. lia.
  - rewrite (filter_all f (seq 0 (length (DISTMESH.p s)))).
    2:{ intros i Hi. apply in_seq in Hi. apply Hf. lia. }
    rewrite (map_nth_seq [] _ _ (Nat.le_refl _)), firstn_all. reflexivity.
Qed.

(** ** Session construction *)

Lemma init_lattice_raise {W : World} (fd fh : point -> float) (h0 : float)
      (pfix bbox : option np.ndarray) (freq : Z)
      (dptol ttol Fscale deltat : float) (g : rng) (e : exn) :
  lattice h0 bbox = Raise e ->
  DISTMESH.__init__ fd fh h0 pfix bbox freq dptol ttol Fscale deltat g
  = Raise e.
Proof.
  unfold lattice, DISTMESH.__init__. intros H.
  destruct (shape1 _) as [Ndim|e']; cbn [bind] in *; [|congruence].
  rewrite H. reflexivity.
Qed.

Lemma init_empty_raise {W : World} (fd fh : point -> float) (h0 : float)
      (pfix bbox : option np.ndarray) (freq : Z)
      (dptol ttol Fscale deltat : float) (g : rng) (pts : np.ndarray) :
  lattice h0 bbox = Ok pts ->
  inside fd h0 pts = [] ->
  DISTMESH.__init__ fd fh h0 pfix bbox freq dptol ttol Fscale deltat g
  = Raise ValueError.
Proof.
  unfold lattice, inside, DISTMESH.__init__. intros H Hin.
  destruct (shape1 _) as [Ndim|e']; cbn [bind] in *; [|discriminate].
  rewrite H. cbn [bind]. rewrite Hin.
  destruct (rand _ g) as [u g']. reflexivity.
Qed.

Lemma arange_zero_step (start stop step : float) :
  (step =? 0)%float = true ->
  np.arange_float start stop step = Raise ZeroDivisionError.
Proof. intros H. unfold np.arange_float. now rewrite H. Qed.

Lemma lattice_zero_spacing (h0 : float) (bbox : option np.ndarray) :
  (h0 =? 0)%float = true -> raises (lattice h0 bbox).
Proof.
  intros H. unfold lattice, raises.
  destruct (shape1 _) as [Ndim|e]; cbn [bind]; [|eauto].
  destruct (Ndim =? 2); unfold bbox2d, bbox3d;
    (destruct (item _ 0 0) as [x0|e]; cbn [bind]; [|eauto];
     destruct (item _ 1 0) as [x1|e]; cbn [bind]; [|eauto];
     rewrite (arange_zero_step _ _ _ H); cbn [bind]; eauto).
Qed.

(** C4, as the code has it. When no lattice point has a distance-field
    value below [geps], session construction raises: the sampler takes the
    maximum of an empty array.  No Point Set results, with or without fixed
    points, and [build] raises with it. *)
Theorem init_fails_on_empty_intersection (W : World)
        (fd fh : point -> float) (h0 : float) (pfix bbox : option np.ndarray)
        (freq : Z) (dptol ttol Fscale deltat : float) (maxiter : Z) (g : rng)
        (pts : np.ndarray) :
  lattice h0 bbox = Ok pts ->
  inside fd h0 pts = [] ->
  DISTMESH.__init__ fd fh h0 pfix bbox freq dptol ttol Fscale deltat g
  = Raise ValueError
  /\ build fd fh pfix bbox h0 freq dptol ttol Fscale deltat maxiter g
     = Raise ValueError.
Proof.
  intros Hl Hin.
  assert (Hinit : DISTMESH.__init__ fd fh h0 pfix bbox freq dptol ttol Fscale
                                    deltat g = Raise ValueError).
  { unfold lattice in Hl. unfold inside in Hin. unfold DISTMESH.__init__.
    destruct (shape1 _) as [Ndim|e]; cbn [bind] in *; [|discriminate].
    rewrite Hl. cbn [bind]. rewrite Hin.
    destruct (rand _ g) as [u g']. reflexivity. }
  split; [exact Hinit|]. unfold build. rewrite Hinit. reflexivity.
Qed.

(** C8, as the code has it. The constructor checks nothing itself; it raises
    when [h0] is zero, when the bounding box yields no lattice, and when no
    lattice point lies inside the domain, and [build] hands that exception
    on without a second attempt. *)
Theorem configuration_errors_surface (W : World)
        (fd fh : point -> float) (pfix bbox : option np.ndarray) (h0 : float)
        (freq : Z) (dptol ttol Fscale deltat : float) (maxiter : Z) (g : rng) :
  (h0 =? 0)%float = true
  \/ (forall pts, lattice h0 bbox = Ok pts -> inside fd h0 pts = []) ->
  exists e,
    DISTMESH.__init__ fd fh h0 pfix bbox freq dptol ttol Fscale deltat g
    = Raise e
    /\ build fd fh pfix bbox h0 freq dptol ttol Fscale deltat maxiter g
       = Raise e.
Proof.
  intros H.
  assert (Hinit : exists e,
             DISTMESH.__init__ fd fh h0 pfix bbox freq dptol ttol Fscale
                               deltat g = Raise e).
  { destruct (lattice h0 bbox) as [pts|e] eqn:Hl.
    - destruct H as [H|H].
      + destruct (lattice_zero_spacing h0 bbox H) as (e & He). congruence.
      + exists ValueError. eapply init_empty_raise; [exact Hl | now apply H].
    - exists e. now apply init_lattice_raise. }
  destruct Hinit as (e & He). exists e. split; [exact He|].
  unfold build. now rewrite He.
Qed.

(** ** The snapshot of previous positions *)

Lemma sub_infinity (x : float) :
  below_inf x = true -> (x - infinity)%float = neg_infinity.
Proof.
  unfold below_inf. intros H.
  rewrite <- (SF2Prim_Prim2SF (x - infinity)), sub_spec.
  rewrite ltb_spec in H.
  destruct (Prim2SF x) as [sx | [|] | | sx m e]; try discriminate; reflexivity.
Qed.

Lemma zip_with_repeat_all {A B C : Type} (f : A -> B -> C) (P : A -> Prop)
      (Q : C -> Prop) (y : B) (xs : list A) (d : nat) :
  (forall x, P x -> Q (f x y)) ->
  Forall P xs -> Forall Q (np.zip_with f xs (repeat y d)).
Proof.
  intros HPQ H. revert d. induction H as [|x xs Hx _ IH]; intros [|d]; simpl;
    constructor; auto.
Qed.

Lemma dist_from_infinity {W : World} (q : point) (d : nat) :
  sums_infinities W -> bounded_point q -> 0 < d ->
  dist (vsub q (repeat (infinity * 1)%float d)) = infinity.
Proof.
  intros Hsum [Hne Hq] Hd. unfold dist, vsub.
  rewrite Hsum; [reflexivity | |].
  - destruct q as [|x q]; [contradiction|]. destruct d; [lia|]. discriminate.
  - apply Forall_map.
    apply (zip_with_repeat_all _ (fun x => below_inf x = true)); [|exact Hq].
    intros x Hx. change (infinity * 1)%float with infinity.
    rewrite (sub_infinity x Hx). reflexivity.
Qed.

Lemma max_of_infinities (l : list float) :
  l <> [] -> Forall (fun x => x = infinity) l -> np.max l = Ok infinity.
Proof.
  destruct l as [|x l]; [contradiction|]. intros _ H.
  apply Forall_cons_iff in H. destruct H as [-> Hl]. simpl. f_equal.
  induction l as [|y l IH]; simpl; [reflexivity|].
  apply Forall_cons_iff in Hl. destruct Hl as [-> Hl].
  change (np.maximum infinity infinity) with infinity. now apply IH.
Qed.

Lemma inf_ones_length (n d : nat) : length (inf_ones n d) = n.
Proof. apply repeat_length. Qed.

Lemma zip_with_inf_ones {A : Type} (f : point -> point -> A) (P : A -> Prop)
      (p : np.ndarray) (d : nat) :
  (forall q, In q p -> P (f q (repeat (infinity * 1)%float d))) ->
  Forall P (np.zip_with f p (inf_ones (length p) d)).
Proof.
  unfold inf_ones. induction p as [|q p IH]; simpl; intros H; constructor; auto.
Qed.

Lemma retriangulate_after_reset {W : World} (s : DISTMESH.self) :
  sums_infinities W ->
  DISTMESH.pold s = inf_ones (length (DISTMESH.p s)) (DISTMESH.Ndim s) ->
  DISTMESH.p s <> [] ->
  0 < DISTMESH.Ndim s ->
  Forall bounded_point (DISTMESH.p s) ->
  below_inf (DISTMESH.h0 s * DISTMESH.ttol s) = true ->
  DISTMESH.is_retriangulate s = Ok true.
Proof.
  intros Hsum Hpold Hne Hd Hp Hthr. unfold DISTMESH.is_retriangulate.
  rewrite Hpold, broadcast_same_length by now rewrite inf_ones_length.
  cbn [bind]. rewrite max_of_infinities.
  - cbn [bind]. f_equal. exact Hthr.
  - destruct (DISTMESH.p s) as [|q p]; [contradiction|].
    unfold inf_ones. simpl. discriminate.
  - apply Forall_map, zip_with_inf_ones. intros q Hq.
    rewrite Forall_forall in Hp. now apply dist_from_infinity; auto.
Qed.

Lemma iadd_length (p x p1 : np.ndarray) :
  iadd p x = Ok p1 -> length p1 = length p.
Proof.
  unfold iadd. destruct (length x =? length p) eqn:E.
  - apply Nat.eqb_eq in E. intros [= <-]. rewrite zip_with_length. lia.
  - destruct x as [|r [|? ?]]; try discriminate.
    intros [= <-]. apply length_map.
Qed.

Lemma triangulate_rows {W : World} (s s' : DISTMESH.self) :
  rows_agree s -> DISTMESH.triangulate s = Ok s' -> rows_agree s'.
Proof.
  unfold rows_agree. intros Hr H. apply triangulate_inv in H.
  destruct H as (pold' & t' & per & Ha & _ & _ & ->). simpl.
  unfold assign_rows in Ha. rewrite Hr, Nat.eqb_refl in Ha.
  now injection Ha as <-.
Qed.

Lemma move_p_rows {W : World} (s s' : DISTMESH.self) (Ftot : np.ndarray)
      (c : bool) :
  rows_agree s -> DISTMESH.move_p s Ftot = Ok (s', c) -> rows_agree s'.
Proof.
  unfold rows_agree, DISTMESH.move_p. intros Hr H.
  bind_as H p1 Hp1. bind_as H interior Hi. bind_as H m Hm.
  injection H as <- _. simpl. apply iadd_length in Hp1. rewrite Hr, <- Hp1.
  destruct (0 <? _); [|reflexivity].
  rewrite zip_with_length, !length_map. lia.
Qed.

Lemma density_control_rows (s s' : DISTMESH.self)
      (L L0 : list float) :
  DISTMESH.density_control s L L0 = Ok s' ->
  rows_agree s'
  /\ DISTMESH.pold s' = inf_ones (length (DISTMESH.p s')) (DISTMESH.Ndim s').
Proof.
  unfold rows_agree, DISTMESH.density_control. intros H.
  bind_as H ixout Hix. bind_as H flagged Hf. bind_as H p' Hp'.
  injection H as <-. simpl. split; [apply inf_ones_length | reflexivity].
Qed.

Lemma init_rows {W : World} (fd fh : point -> float) (h0 : float)
      (pfix bbox : option np.ndarray) (freq : Z)
      (dptol ttol Fscale deltat : float) (g g' : rng) (s : DISTMESH.self) :
  DISTMESH.__init__ fd fh h0 pfix bbox freq dptol ttol Fscale deltat g
  = Ok (s, g') ->
  rows_agree s.
Proof.
  intros H. apply init_inv in H.
  destruct H as (s0 & pts & Ht & _ & _ & _ & _ & _ & _ & _ & _ & _ & Hpold & _).
  eapply triangulate_rows; [|exact Ht].
  unfold rows_agree. rewrite Hpold. apply inf_ones_length.
Qed.

Lemma relax_rows {W : World} (freq : Z) (n : nat) :
  forall (i : Z) (dm out : DISTMESH.self),
    rows_agree dm -> relax freq n i dm = Ok out -> rows_agree out.
Proof.
  induction n as [|n IH]; intros i dm out Hr H.
  - now injection H as <-.
  - apply relax_step in H.
    destruct H as (re & dm1 & L & L0 & barvec & _ & Ht & _ & Hrest).
    assert (R1 : rows_agree dm1).
    { destruct re.
      - eapply triangulate_rows; eassumption.
      - now injection Ht as <-. }
    destruct Hrest as [(dm2 & Hd & Hx) | (Ftot & dm2 & c & _ & Hm & Hx)].
    + apply density_control_rows in Hd. destruct Hd as [R2 _]. eauto.
    + pose proof (move_p_rows _ _ _ _ R1 Hm) as R2. destruct c.
      * now injection Hx as <-.
      * eauto.
Qed.

(** C6, as the code has it. The snapshot [pold] has one row per point after
    construction and after every method of the session.  [density_control]
    resets it to infinities, and the next [is_retriangulate] then answers
    true when the resized Point Set is not empty, its coordinates are below
    [+inf], and the threshold [h0 * ttol] is below [+inf]. *)
Theorem pold_tracks_point_set (W : World) :
  (forall fd fh h0 pfix bbox freq dptol ttol Fscale deltat g s g',
      DISTMESH.__init__ fd fh h0 pfix bbox freq dptol ttol Fscale deltat g
      = Ok (s, g') -> rows_agree s)
  /\ (forall s s', rows_agree s -> DISTMESH.triangulate s = Ok s' ->
                   rows_agree s')
  /\ (forall s Ftot s' c, rows_agree s ->
                          DISTMESH.move_p s Ftot = Ok (s', c) -> rows_agree s')
  /\ (forall freq n i s out, rows_agree s -> relax freq n i s = Ok out ->
                             rows_agree out)
  /\ (forall s L L0 s',
         DISTMESH.density_control s L L0 = Ok s' ->
         rows_agree s'
         /\ DISTMESH.pold s'
            = inf_ones (length (DISTMESH.p s')) (DISTMESH.Ndim s')
         /\ (sums_infinities W ->
             DISTMESH.p s' <> [] ->
             0 < DISTMESH.Ndim s' ->
             Forall bounded_point (DISTMESH.p s') ->
             below_inf (DISTMESH.h0 s' * DISTMESH.ttol s') = true ->
             DISTMESH.is_retriangulate s' = Ok true)).
Proof.
  split; [intros; eapply init_rows; eassumption|].
  split; [intros; eapply triangulate_rows; eassumption|].
  split; [intros; eapply move_p_rows; eassumption|].
  split; [intros; eapply relax_rows; eassumption|].
  intros s L L0 s' H. apply density_control_rows in H. destruct H as [Hr Hp].
  split; [exact Hr|]. split; [exact Hp|].
  intros. now apply retriangulate_after_reset.
Qed.

(** ** Shape invariants of a session *)

Lemma mapM_in {A B : Type} (f : A -> result B) (l : list A) (ys : list B)
      (y : B) :
  mapM f l = Ok ys -> In y ys -> exists x, In x l /\ f x = Ok y.
Proof.
  intros H. apply mapM_ok in H.
  induction H as [|x y' l ys Hxy _ IH]; simpl; [tauto|].
  intros [->|Hin].
  - exists x. auto.
  - destruct (IH Hin) as (x' & Hx' & Hf). exists x'. auto.
Qed.

Lemma edges_of_in (combos : list (nat * nat)) (simplex : list nat)
      (es : list (nat * nat)) (e : nat * nat) :
  edges_of combos simplex = Ok es -> In e es ->
  In (fst e) simplex /\ In (snd e) simplex.
Proof.
  intros H Hin. destruct (mapM_in _ _ _ _ H Hin) as (ij & _ & Hij).
  destruct (nth_error simplex (fst ij)) eqn:E1; [|discriminate].
  destruct (nth_error simplex (snd ij)) eqn:E2; [|discriminate].
  injection Hij as <-. simpl. split; eapply nth_error_In; eassumption.
Qed.

Lemma triangulate_valid_bars {W : World} (s s' : DISTMESH.self) :
  DISTMESH.triangulate s = Ok s' ->
  valid_bars (DISTMESH.p s') (DISTMESH.bars s').
Proof.
  intros H. apply triangulate_inv in H.
  destruct H as (pold' & t' & per & _ & Hd & Hper & ->). simpl.
  apply delaunay_inv in Hd. destruct Hd as (tri & _ & Hv & Hsub).
  unfold valid_bars, valid_simplices in *. rewrite Forall_forall in *.
  intros b Hb. unfold np.unique_rows in Hb.
  apply (proj1 (unique_by_in _ _ pair_ltb_total _ _)) in Hb.
  apply in_map_iff in Hb. destruct Hb as (e & <- & He).
  apply in_concat in He. destruct He as (es & Hes & He).
  destruct (mapM_in _ _ _ _ Hper Hes) as (simplex & Hs & Hedges).
  destruct (edges_of_in _ _ _ _ Hedges He) as [Ha Hb].
  specialize (Hv simplex (Hsub _ Hs)). rewrite Forall_forall in Hv.
  apply Hv in Ha. apply Hv in Hb.
  unfold sort_pair. destruct (snd e <? fst e); simpl; auto.
Qed.

Lemma triangulate_count {W : World} (s s' : DISTMESH.self) :
  counts_agree s -> DISTMESH.triangulate s = Ok s' -> counts_agree s'.
Proof.
  unfold counts_agree. intros Hc H. apply triangulate_inv in H.
  destruct H as (pold' & t' & per & _ & _ & _ & ->). exact Hc.
Qed.

Lemma move_p_count {W : World} (s s' : DISTMESH.self) (Ftot : np.ndarray)
      (c : bool) :
  counts_agree s -> DISTMESH.move_p s Ftot = Ok (s', c) -> counts_agree s'.
Proof.
  unfold counts_agree, DISTMESH.move_p. intros Hc H.
  bind_as H p1 Hp1. bind_as H interior Hi. bind_as H m Hm.
  injection H as <- _. simpl. apply iadd_length in Hp1. rewrite Hc, <- Hp1.
  destruct (0 <? _); [|reflexivity].
  rewrite zip_with_length, !length_map. lia.
Qed.

Lemma density_control_count (s s' : DISTMESH.self) (L L0 : list float) :
  DISTMESH.density_control s L L0 = Ok s' -> counts_agree s'.
Proof.
  unfold counts_agree, DISTMESH.density_control. intros H.
  bind_as H ixout Hix. bind_as H flagged Hf. bind_as H p' Hp'.
  injection H as <-. reflexivity.
Qed.

Lemma init_count {W : World} (fd fh : point -> float) (h0 : float)
      (pfix bbox : option np.ndarray) (freq : Z)
      (dptol ttol Fscale deltat : float) (g g' : rng) (s : DISTMESH.self) :
  DISTMESH.__init__ fd fh h0 pfix bbox freq dptol ttol Fscale deltat g
  = Ok (s, g') ->
  counts_agree s.
Proof.
  intros H. apply init_inv in H.
  destruct H as (s0 & pts & Ht & _ & _ & _ & _ & _ & _ & _ & _ & HN & _).
  eapply triangulate_count; [exact HN | exact Ht].
Qed.

Lemma relax_count {W : World} (freq : Z) (n : nat) :
  forall (i : Z) (dm out : DISTMESH.self),
    counts_agree dm -> relax freq n i dm = Ok out -> counts_agree out.
Proof.
  induction n as [|n IH]; intros i dm out Hc H.
  - now injection H as <-.
  - apply relax_step in H.
    destruct H as (re & dm1 & L & L0 & barvec & _ & Ht & _ & Hrest).
    assert (C1 : counts_agree dm1).
    { destruct re.
      - eapply triangulate_count; eassumption.
      - now injection Ht as <-. }
    destruct Hrest as [(dm2 & Hd & Hx) | (Ftot & dm2 & c & _ & Hm & Hx)].
    + apply density_control_count in Hd. eauto.
    + pose proof (move_p_count _ _ _ _ C1 Hm) as C2. destruct c.
      * now injection Hx as <-.
      * eauto.
Qed.

(** ** Fixed points in the force model *)

Lemma zero_rows_fixed (k : nat) (Ftot : np.ndarray) :
  Forall (Forall (fun x => x = 0%float)) (firstn k (zero_rows k Ftot)).
Proof.
  unfold zero_rows.
  rewrite firstn_app, length_map, length_firstn.
  assert (Hrest : firstn (k - Nat.min k (length Ftot)) (skipn k Ftot) = []).
  { destruct (Nat.le_gt_cases k (length Ftot)) as [Hle|Hgt].
    - replace (k - Nat.min k (length Ftot)) with 0 by lia. reflexivity.
    - rewrite skipn_all2 by lia. apply firstn_nil. }
  rewrite Hrest, app_nil_r.
  rewrite firstn_all2 by (rewrite length_map, length_firstn; lia).
  apply Forall_forall. intros r Hr.
  apply in_map_iff in Hr. destruct Hr as (r0 & <- & _).
  apply Forall_forall. intros x Hx. apply in_map_iff in Hx.
  now destruct Hx as (? & <- & _).
Qed.

(** The net force on every fixed point is zero. *)
Lemma bar_force_fixed_rows (s : DISTMESH.self) (L L0 : list float)
      (barvec Ftot : np.ndarray) :
  DISTMESH.bar_force s L L0 barvec = Ok Ftot ->
  Forall (Forall (fun x => x = 0%float))
         (firstn (length (DISTMESH.pfix s)) Ftot).
Proof.
  unfold DISTMESH.bar_force. intros H.
  bind_as H F HF. bind_as H unit Hu. bind_as H Fvec HFvec. bind_as H M HM.
  injection H as <-. apply zero_rows_fixed.
Qed.

Lemma alter_length {A : Type} (f : A -> A) (i : nat) (l : list A) :
  length (alter f i l) = length l.
Proof.
  revert i. induction l as [|x l IH]; intros [|i]; simpl; auto.
Qed.

Lemma accumulate_length (n d : nat) (entries : list (nat * nat * float)) :
  forall (acc : result np.ndarray) (M : np.ndarray),
    fold_left (accumulate n d) entries acc = Ok M ->
    exists M0, acc = Ok M0 /\ length M = length M0.
Proof.
  induction entries as [|e entries IH]; simpl; intros acc M H.
  - exists M. auto.
  - apply IH in H. destruct H as (M1 & H1 & Hlen).
    unfold accumulate in H1. bind_as H1 M0 HM0.
    destruct e as [[r c] v]. destruct ((r <? n) && (c <? d)); [|discriminate].
    injection H1 as <-. exists M0. split; [assumption|].
    now rewrite Hlen, alter_length.
Qed.

Lemma zero_rows_length (k : nat) (Ftot : np.ndarray) :
  length (zero_rows k Ftot) = length Ftot.
Proof.
  unfold zero_rows. rewrite length_app, length_map, <- length_app.
  now rewrite firstn_skipn.
Qed.

(** The force array has one row per point. *)
Lemma bar_force_length (s : DISTMESH.self) (L L0 : list float)
      (barvec Ftot : np.ndarray) :
  DISTMESH.bar_force s L L0 barvec = Ok Ftot -> length Ftot = DISTMESH.N s.
Proof.
  unfold DISTMESH.bar_force. intros H.
  bind_as H F HF. bind_as H unit Hu. bind_as H Fvec HFvec. bind_as H M HM.
  injection H as <-. rewrite zero_rows_length.
  unfold csr_toarray in HM. destruct (_ && _); [|discriminate].
  apply accumulate_length in HM. destruct HM as (M0 & [= <-] & ->).
  apply repeat_length.
Qed.

(** The boundary projection of [move_p] looks at the distance value of a
    row only: a row that ends up outside is moved, whatever its index. *)
Lemma move_p_projects_outside_rows {W : World} (s s' : DISTMESH.self)
      (Ftot : np.ndarray) (c : bool) (i : nat) (q : point) :
  length Ftot = length (DISTMESH.p s) ->
  DISTMESH.move_p s Ftot = Ok (s', c) ->
  nth_error (moved s Ftot) i = Some q ->
  (0 <? DISTMESH.fd s q)%float = true ->
  nth_error (DISTMESH.p s') i
  = Some (vsub q (edge_project (DISTMESH.fd s) q)).
Proof.
  intros Hlen H Hq Hout. unfold DISTMESH.move_p in H.
  rewrite iadd_same_length in H by now rewrite length_map.
  fold (moved s Ftot) in H. cbn [bind] in H.
  bind_as H interior Hi. bind_as H m Hm. injection H as <- _. simpl.
  set (ix := map (fun x => (0 <? x)%float) (map (DISTMESH.fd s) (moved s Ftot))).
  assert (Hix : nth_error ix i = Some true).
  { unfold ix. rewrite map_map, nth_error_map, Hq. simpl. now rewrite Hout. }
  assert (Hcount : (0 <? count_occ bool_dec ix true) = true).
  { apply Nat.ltb_lt, count_occ_In. eapply nth_error_In; exact Hix. }
  rewrite Hcount.
  now rewrite (zip_with_nth _ _ _ _ _ _ Hq Hix).
Qed.

(** ** Closed runs *)

(** The sequential sum adds infinities to infinity. *)
Lemma demo_sums_infinities : sums_infinities demo.
Proof.
  intros l Hne Hl. simpl. unfold sum_seq.
  destruct l as [|x l]; [contradiction|].
  apply Forall_cons_iff in Hl. destruct Hl as [-> Hl]. simpl.
  change (0 + infinity)%float with infinity.
  induction l as [|y l IH]; simpl; [reflexivity|].
  apply Forall_cons_iff in Hl. destruct Hl as [-> Hl].
  change (infinity + infinity)%float with infinity. now apply IH.
Qed.

Lemma triangulate_indices_and_bars_witness :
  exists s',
    DISTMESH.triangulate (W := demo) crowded_session = Ok s'
    /\ DISTMESH.p s' = DISTMESH.p crowded_session
    /\ valid_simplices (DISTMESH.p s') (DISTMESH.t s')
    /\ NoDup (DISTMESH.bars s')
    /\ Forall (fun b => fst b <= snd b) (DISTMESH.bars s')
    /\ (forall a b, In (a, b) (DISTMESH.bars s') ->
                    In (b, a) (DISTMESH.bars s') -> a = b).
Proof.
  eexists. split; [vm_compute; reflexivity|].
  apply (triangulate_indices_and_bars demo crowded_session).
  vm_compute. reflexivity.
Defined.

Lemma build_returns_final_triangulation_witness :
  exists p t dm0 g' dm,
    DISTMESH.__init__ (W := demo) circle area_uniform 1 None
                      (Some [[0; 0]; [2; 1]]%float) 30 0.001 0.1 1.2 0.2 0
    = Ok (dm0, g')
    /\ relax (W := demo) 30 (Z.to_nat 2) 0 dm0 = Ok dm
    /\ DISTMESH.p dm = p
    /\ DISTMESH._delaunay (W := demo) p circle (0.001 * 1)%float = Ok t.
Proof.
  eexists. eexists.
  apply (build_returns_final_triangulation demo circle area_uniform None
           (Some [[0; 0]; [2; 1]]%float) 1 30 0.001 0.1 1.2 0.2 2 0).
  vm_compute. reflexivity.
Defined.

Lemma build_deterministic_witness :
  build (W := demo) circle area_uniform None (Some [[0; 0]; [2; 1]]%float)
        1 30 0.001 0.1 1.2 0.2 2 0
  = build (W := demo) circle area_uniform None (Some [[0; 0]; [2; 1]]%float)
          1 30 0.001 0.1 1.2 0.2 2 7.
Proof.
  apply (build_deterministic demo). intros n. reflexivity.
Defined.

Lemma bar_length_formula_witness :
  DISTMESH.bar_length (W := demo) crowded_session
  = Ok (map (euclidean_length (W := demo) crowded_session)
            (DISTMESH.bars crowded_session),
        map (desired_length (W := demo) crowded_session)
            (DISTMESH.bars crowded_session),
        map (bar_vector crowded_session) (DISTMESH.bars crowded_session)).
Proof.
  apply (bar_length_formula demo crowded_session).
  unfold valid_bars. simpl. repeat constructor.
Defined.

Lemma density_control_removes_crowded_witness :
  exists keep s',
    DISTMESH.density_control crowded_session
                             [1; 1; 1]%float [3; 3; 3]%float = Ok s'
    /\ np.take (DISTMESH.p crowded_session) keep = Ok (DISTMESH.p s')
    /\ increasing keep
    /\ ~ In 0 keep
    /\ ~ In 1 keep
    /\ (forall i, i < DISTMESH.nfix crowded_session ->
                  i < length (DISTMESH.p crowded_session) -> In i keep)
    /\ firstn (DISTMESH.nfix crowded_session) (DISTMESH.p s')
       = firstn (DISTMESH.nfix crowded_session) (DISTMESH.p crowded_session)
    /\ DISTMESH.nfix s' = DISTMESH.nfix crowded_session.
Proof.
  apply (density_control_removes_crowded crowded_session
           [1; 1; 1]%float [3; 3; 3]%float 0 0 1 1%float 3%float);
    try reflexivity; simpl; lia.
Defined.

Lemma init_fails_on_empty_intersection_witness :
  DISTMESH.__init__ (W := demo) circle area_uniform 1
                    (Some [[0; 0]; [1; 0]; [0; 1]]%float)
                    (Some [[2; 2]; [3; 3]]%float) 30 0.001 0.1 1.2 0.2 0
  = Raise ValueError
  /\ build (W := demo) circle area_uniform
           (Some [[0; 0]; [1; 0]; [0; 1]]%float)
           (Some [[2; 2]; [3; 3]]%float) 1 30 0.001 0.1 1.2 0.2 500 0
     = Raise ValueError.
Proof.
  apply (init_fails_on_empty_intersection demo circle area_uniform 1
           (Some [[0; 0]; [1; 0]; [0; 1]]%float)
           (Some [[2; 2]; [3; 3]]%float) 30 0.001 0.1 1.2 0.2 500 0
           [[2; 2]; [2.5; 2.8660254037844384]]%float).
  - vm_compute. reflexivity.
  - vm_compute. reflexivity.
Defined.

(** C4, counterexample. The lattice of the box [[2,2],[3,3]] misses the unit
    disk, three fixed points are supplied, and the constructor raises
    instead of returning a session whose points are the fixed points. *)
Lemma empty_intersection_counterexample :
  lattice 1 (Some [[2; 2]; [3; 3]]%float)
  = Ok [[2; 2]; [2.5; 2.8660254037844384]]%float
  /\ inside circle 1 [[2; 2]; [2.5; 2.8660254037844384]]%float = []
  /\ ~ (exists s g',
           DISTMESH.__init__ (W := demo) circle area_uniform 1
                             (Some [[0; 0]; [1; 0]; [0; 1]]%float)
                             (Some [[2; 2]; [3; 3]]%float)
                             30 0.001 0.1 1.2 0.2 0
           = Ok (s, g')
           /\ DISTMESH.p s = [[0; 0]; [1; 0]; [0; 1]]%float).
Proof.
  split; [vm_compute; reflexivity|]. split; [vm_compute; reflexivity|].
  intros (s & g' & H & _). vm_compute in H. discriminate.
Qed.

Lemma configuration_errors_surface_witness :
  exists e,
    DISTMESH.__init__ (W := demo) circle area_uniform 0 None None
                      30 0.001 0.1 1.2 0.2 0 = Raise e
    /\ build (W := demo) circle area_uniform None None 0
             30 0.001 0.1 1.2 0.2 500 0 = Raise e.
Proof.
  apply (configuration_errors_surface demo circle area_uniform None None 0
           30 0.001 0.1 1.2 0.2 500 0).
  left. reflexivity.
Defined.

(** C8, counterexample. Neither a negative [h0] with a reversed bounding box
    nor a bounding box with a surplus row is reported: both construct a
    session. *)
Lemma unchecked_configuration_counterexample :
  (exists s g',
      DISTMESH.__init__ (W := demo) circle area_uniform (-1)
                        (Some [[0; 0]; [-0.5; 0.5]]%float)
                        (Some [[1; 1]; [0; 0]]%float)
                        30 0.001 0.1 1.2 0.2 0 = Ok (s, g'))
  /\ (exists s g',
         DISTMESH.__init__ (W := demo) circle area_uniform 1
                           (Some [[-0.5; 0]]%float)
                           (Some [[0; 0]; [1; 1]; [7; 7]]%float)
                           30 0.001 0.1 1.2 0.2 0 = Ok (s, g')).
Proof.
  split; eexists; eexists; vm_compute; reflexivity.
Qed.

Lemma pold_tracks_point_set_witness :
  exists s',
    DISTMESH.density_control crowded_session
                             [1; 1; 1]%float [3; 0; 0]%float = Ok s'
    /\ DISTMESH.p s' = [[0.5; 0.8660254037844386]]%float
    /\ rows_agree s'
    /\ DISTMESH.is_retriangulate (W := demo) s' = Ok true.
Proof.
  eexists. split; [vm_compute; reflexivity|]. split; [reflexivity|].
  destruct (pold_tracks_point_set demo) as (_ & _ & _ & _ & H).
  destruct (H crowded_session [1; 1; 1]%float [3; 0; 0]%float _ eq_refl)
    as (Hr & _ & Hre).
  split; [exact Hr|]. apply Hre.
  - exact demo_sums_infinities.
  - discriminate.
  - simpl. lia.
  - repeat constructor; discriminate.
  - reflexivity.
Defined.

(** C6, counterexample. With a force scale of 3 every bar of the first
    triangulation is crowded and no point is fixed: [density_control]
    deletes all three points, and the next [is_retriangulate] raises at the
    maximum of an empty array instead of answering true. *)
Lemma density_control_empties_counterexample :
  exists s g' L L0 barvec s',
    DISTMESH.__init__ (W := demo) circle area_uniform 1 None
                      (Some [[0; 0]; [2; 1]]%float) 30 0.001 0.1 3 0.2 0
    = Ok (s, g')
    /\ DISTMESH.bar_length (W := demo) s = Ok (L, L0, barvec)
    /\ DISTMESH.density_control s L L0 = Ok s'
    /\ DISTMESH.p s' = []
    /\ DISTMESH.is_retriangulate (W := demo) s' = Raise ValueError.
Proof.
  do 6 eexists.
  split; [vm_compute; reflexivity|].
  split; [vm_compute; reflexivity|].
  split; [vm_compute; reflexivity|].
  split; vm_compute; reflexivity.
Qed.

(** C1, the failing run. The fixed point (2, 0) lies outside the unit disk;
    its force is zeroed, yet the boundary projection of [move_p] moves it
    to (1, 0), and [build] returns it there. *)
Theorem fixed_point_is_projected :
  exists p t,
    build (W := demo) circle area_uniform (Some [[2; 0]]%float)
          (Some [[0; 0]; [1; 1]]%float) 1 30 0.001 0.1 1.2 0.2 1 0
    = Ok (p, t)
    /\ nth_error p 0 = Some [1; 0]%float
    /\ firstn 1 p <> [[2; 0]]%float.
Proof.
  do 2 eexists. split; [vm_compute; reflexivity|].
  split; [reflexivity|]. discriminate.
Qed.

(** The exception of [move_p] in a run of [build]: with one fixed point
    outside the unit disk and two lattice points, the springs push every
    point to the boundary; in the twelfth iteration no point is strictly
    interior any more and [move_p] raises. *)
Lemma move_p_raises_in_a_run :
  exists dm0 g' dm1 dm2 L L0 barvec Ftot,
    DISTMESH.__init__ (W := demo) circle area_uniform 1
                      (Some [[2; 0]]%float) (Some [[0; 0]; [1; 1]]%float)
                      30 0.001 0.1 1.2 0.2 0 = Ok (dm0, g')
    /\ relax (W := demo) 30 11 0 dm0 = Ok dm1
    /\ DISTMESH.is_retriangulate (W := demo) dm1 = Ok true
    /\ DISTMESH.triangulate (W := demo) dm1 = Ok dm2
    /\ DISTMESH.bar_length (W := demo) dm2 = Ok (L, L0, barvec)
    /\ DISTMESH.bar_force dm2 L L0 barvec = Ok Ftot
    /\ DISTMESH.move_p (W := demo) dm2 Ftot = Raise ValueError
    /\ build (W := demo) circle area_uniform (Some [[2; 0]]%float)
             (Some [[0; 0]; [1; 1]]%float) 1 30 0.001 0.1 1.2 0.2 12 0
       = Raise ValueError.
Proof.
  do 8 eexists.
  repeat (split; [vm_compute; reflexivity|]).
  vm_compute. reflexivity.
Qed.

(** * Further properties of the mesh generator *)

(** ** The initial lattice *)

Lemma filter_filter {A : Type} (f g : A -> bool) (l : list A) :
  filter f (filter g l) = filter (fun x => g x && f x) l.
Proof.
  induction l as [|x l IH]; simpl; [reflexivity|].
  destruct (g x); simpl; [destruct (f x)|]; now rewrite IH.
Qed.

Lemma filter_true {A : Type} (l : list A) : filter (fun _ => true) l = l.
Proof. induction l as [|x l IH]; simpl; [reflexivity | now rewrite IH]. Qed.

(** X1. [remove_duplicate_nodes] keeps, in their order, exactly the rows of
    [p] that are farther than [geps] from every fixed point. *)
Theorem remove_duplicate_nodes_keeps_clear_rows (W : World)
        (p pfix : np.ndarray) (geps : float) :
  remove_duplicate_nodes p pfix geps = filter (clear_of pfix geps) p
  /\ (forall q, In q (remove_duplicate_nodes p pfix geps) <->
                In q p /\ forall row, In row pfix ->
                                      (geps <? dist (vsub q row))%float = true).
Proof.
  assert (Heq : remove_duplicate_nodes p pfix geps
                = filter (clear_of pfix geps) p).
  { unfold remove_duplicate_nodes, clear_of. revert p.
    induction pfix as [|row pfix IH]; intros p; simpl.
    - now rewrite filter_true.
    - rewrite IH, filter_filter. reflexivity. }
  split; [exact Heq|]. intros q. rewrite Heq, filter_In.
  unfold clear_of. rewrite forallb_forall. tauto.
Qed.

Lemma nth_error_blocks {A : Type} (n : nat) (blocks : list (list A)) :
  Forall (fun b => length b = n) blocks ->
  forall (i j : nat) (b : list A) (x : A),
    nth_error blocks i = Some b -> nth_error b j = Some x ->
    nth_error (concat blocks) (i * n + j) = Some x.
Proof.
  induction 1 as [|b0 blocks Hb0 _ IH]; intros i j b x Hb Hx.
  - destruct i; discriminate.
  - destruct i as [|i]; simpl in *.
    + injection Hb as ->. rewrite nth_error_app1; [exact Hx|].
      apply nth_error_Some. congruence.
    + rewrite nth_error_app2 by lia.
      replace (n + i * n + j - length b0) with (i * n + j) by lia.
      eapply IH; eassumption.
Qed.

Lemma length_blocks {A : Type} (n : nat) (blocks : list (list A)) :
  Forall (fun b => length b = n) blocks ->
  length (concat blocks) = length blocks * n.
Proof.
  induction 1 as [|b0 blocks Hb0 _ IH]; simpl; [reflexivity|].
  rewrite length_app, IH, Hb0. reflexivity.
Qed.

Lemma nth_error_combine_seq {A : Type} (l : list A) (i : nat) (x : A) :
  forall a, nth_error l i = Some x ->
            nth_error (combine (seq a (length l)) l) i = Some (a + i, x).
Proof.
  revert i. induction l as [|y l IH]; intros [|i] a H; simpl in *;
    try discriminate.
  - injection H as ->. now rewrite Nat.add_0_r.
  - rewrite (IH i (S a) H). f_equal. f_equal. lia.
Qed.

Lemma bbox2d_ranges (h0 : float) (bbox pts : np.ndarray) :
  bbox2d h0 bbox = Ok pts ->
  exists xs ys,
    axis_range bbox 0 h0 = Ok xs
    /\ axis_range bbox 1 (h0 * PrimFloat.sqrt 3 / 2)%float = Ok ys
    /\ pts = concat
               (map (fun iy =>
                       map (fun x => [if Nat.odd (fst iy)
                                      then (x + h0 / 2)%float else x;
                                      snd iy]) xs)
                    (combine (seq 0 (length ys)) ys)).
Proof.
  unfold bbox2d, axis_range. intros H.
  bind_as H x0 Hx0. bind_as H x1 Hx1. bind_as H xs Hxs.
  bind_as H y0 Hy0. bind_as H y1 Hy1. bind_as H ys Hys. injection H as <-.
  exists xs, ys. rewrite Hx0, Hx1, Hy0, Hy1. cbn [bind]. auto.
Qed.

(** X2. The planar lattice has one row of points per [y] of its range and
    one point per [x]: [len(ys) * len(xs)] points of two coordinates, the
    point of row [i] and column [j] being [(xs[j], ys[i])], with [h0 / 2]
    added to [x] in the rows of odd index. *)
Theorem bbox2d_is_staggered_grid (h0 : float) (bbox pts : np.ndarray) :
  bbox2d h0 bbox = Ok pts ->
  exists xs ys,
    axis_range bbox 0 h0 = Ok xs
    /\ axis_range bbox 1 (h0 * PrimFloat.sqrt 3 / 2)%float = Ok ys
    /\ length pts = length ys * length xs
    /\ Forall (fun q => length q = 2) pts
    /\ (forall i j x y,
           nth_error ys i = Some y -> nth_error xs j = Some x ->
           nth_error pts (i * length xs + j)
           = Some [if Nat.odd i then (x + h0 / 2)%float else x; y]).
Proof.
  intros H. destruct (bbox2d_ranges _ _ _ H) as (xs & ys & Hxs & Hys & ->).
  exists xs, ys. split; [exact Hxs|]. split; [exact Hys|].
  set (blocks := map _ (combine (seq 0 (length ys)) ys)).
  assert (Hblocks : Forall (fun b => length b = length xs) blocks).
  { apply Forall_forall. intros b Hb. apply in_map_iff in Hb.
    destruct Hb as (iy & <- & _). apply length_map. }
  split.
  { rewrite (length_blocks _ _ Hblocks). unfold blocks.
    now rewrite length_map, length_combine, length_seq, Nat.min_id. }
  split.
  { apply Forall_concat. apply Forall_forall. intros b Hb.
    apply in_map_iff in Hb. destruct Hb as (iy & <- & _).
    apply Forall_forall. intros q Hq. apply in_map_iff in Hq.
    now destruct Hq as (x & <- & _). }
  intros i j x y Hy Hx.
  eapply (nth_error_blocks _ _ Hblocks).
  - unfold blocks. rewrite nth_error_map.
    rewrite (nth_error_combine_seq ys i y 0 Hy). reflexivity.
  - simpl. rewrite nth_error_map, Hx. reflexivity.
Qed.

Lemma bbox2d_is_staggered_grid_witness :
  exists xs ys,
    axis_range [[0; 0]; [2; 1]]%float 0 1 = Ok xs
    /\ axis_range [[0; 0]; [2; 1]]%float 1 (1 * PrimFloat.sqrt 3 / 2)%float
       = Ok ys
    /\ length [[0; 0]; [1; 0]; [0.5; 0.8660254037844386];
               [1.5; 0.8660254037844386]]%float
       = length ys * length xs
    /\ Forall (fun q => length q = 2)
              [[0; 0]; [1; 0]; [0.5; 0.8660254037844386];
               [1.5; 0.8660254037844386]]%float
    /\ (forall i j x y,
           nth_error ys i = Some y -> nth_error xs j = Some x ->
           nth_error [[0; 0]; [1; 0]; [0.5; 0.8660254037844386];
                      [1.5; 0.8660254037844386]]%float
                     (i * length xs + j)
           = Some [if Nat.odd i then (x + 1 / 2)%float else x; y]).
Proof.
  apply (bbox2d_is_staggered_grid 1 [[0; 0]; [2; 1]]%float).
  vm_compute. reflexivity.
Defined.

Lemma bbox3d_ranges (h0 : float) (bbox pts : np.ndarray) :
  bbox3d h0 bbox = Ok pts ->
  exists xs ys zs,
    axis_range bbox 0 h0 = Ok xs
    /\ axis_range bbox 1 h0 = Ok ys
    /\ axis_range bbox 2 h0 = Ok zs
    /\ pts = concat
               (map (fun y =>
                       concat (map (fun x => map (fun z => [x; y; z]) zs) xs))
                    ys).
Proof.
  unfold bbox3d, axis_range. intros H.
  bind_as H x0 Hx0. bind_as H x1 Hx1. bind_as H xs Hxs.
  bind_as H y0 Hy0. bind_as H y1 Hy1. bind_as H ys Hys.
  bind_as H z0 Hz0. bind_as H z1 Hz1. bind_as H zs Hzs. injection H as <-.
  exists xs, ys, zs. rewrite Hx0, Hx1, Hy0, Hy1, Hz0, Hz1. cbn [bind]. auto.
Qed.

(** X3. The spatial lattice is the full grid of the three axis ranges, all
    with step [h0] and without stagger: [len(ys) * len(xs) * len(zs)] points
    of three coordinates, the point at [(i * len(xs) + j) * len(zs) + k]
    being [(xs[j], ys[i], zs[k])]. *)
Theorem bbox3d_is_full_grid (h0 : float) (bbox pts : np.ndarray) :
  bbox3d h0 bbox = Ok pts ->
  exists xs ys zs,
    axis_range bbox 0 h0 = Ok xs
    /\ axis_range bbox 1 h0 = Ok ys
    /\ axis_range bbox 2 h0 = Ok zs
    /\ length pts = length ys * length xs * length zs
    /\ (forall q, In q pts <->
                  exists x y z, q = [x; y; z]
                                /\ In x xs /\ In y ys /\ In z zs)
    /\ (forall i j k x y z,
           nth_error ys i = Some y -> nth_error xs j = Some x ->
           nth_error zs k = Some z ->
           nth_error pts ((i * length xs + j) * length zs + k)
           = Some [x; y; z]).
Proof.
  intros H.
  destruct (bbox3d_ranges _ _ _ H) as (xs & ys & zs & Hxs & Hys & Hzs & ->).
  exists xs, ys, zs. repeat (split; [assumption|]).
  assert (Hinner : forall y,
             Forall (fun b => length b = length zs)
                    (map (fun x => map (fun z => [x; y; z]) zs) xs)).
  { intros y. apply Forall_forall. intros b Hb. apply in_map_iff in Hb.
    destruct Hb as (x & <- & _). apply length_map. }
  assert (Houter : Forall (fun b => length b = length xs * length zs)
                          (map (fun y =>
                                  concat (map (fun x =>
                                                 map (fun z => [x; y; z]) zs)
                                              xs)) ys)).
  { apply Forall_forall. intros b Hb. apply in_map_iff in Hb.
    destruct Hb as (y & <- & _).
    now rewrite (length_blocks _ _ (Hinner y)), length_map. }
  split.
  { rewrite (length_blocks _ _ Houter), length_map. lia. }
  split.
  { intros q. rewrite in_concat. split.
    - intros (b & Hb & Hq). apply in_map_iff in Hb.
      destruct Hb as (y & <- & Hy). apply in_concat in Hq.
      destruct Hq as (c & Hc & Hq). apply in_map_iff in Hc.
      destruct Hc as (x & <- & Hx). apply in_map_iff in Hq.
      destruct Hq as (z & <- & Hz). exists x, y, z. auto.
    - intros (x & y & z & -> & Hx & Hy & Hz).
      eexists. split; [apply in_map_iff; exists y; split; [reflexivity|exact Hy]|].
      apply in_concat. eexists.
      split; [apply in_map_iff; exists x; split; [reflexivity|exact Hx]|].
      apply in_map_iff. exists z. auto. }
  intros i j k x y z Hy Hx Hz.
  replace ((i * length xs + j) * length zs + k)
    with (i * (length xs * length zs) + (j * length zs + k)) by lia.
  eapply (nth_error_blocks _ _ Houter).
  - rewrite nth_error_map, Hy. reflexivity.
  - eapply (nth_error_blocks _ _ (Hinner y)).
    + rewrite nth_error_map, Hx. reflexivity.
    + rewrite nth_error_map, Hz. reflexivity.
Qed.

Lemma bbox3d_is_full_grid_witness :
  exists pts xs ys zs,
    bbox3d 1 [[0; 0; 0]; [2; 1; 2]]%float = Ok pts
    /\ axis_range [[0; 0; 0]; [2; 1; 2]]%float 0 1 = Ok xs
    /\ axis_range [[0; 0; 0]; [2; 1; 2]]%float 1 1 = Ok ys
    /\ axis_range [[0; 0; 0]; [2; 1; 2]]%float 2 1 = Ok zs
    /\ length pts = length ys * length xs * length zs
    /\ (forall q, In q pts <->
                  exists x y z, q = [x; y; z]
                                /\ In x xs /\ In y ys /\ In z zs)
    /\ (forall i j k x y z,
           nth_error ys i = Some y -> nth_error xs j = Some x ->
           nth_error zs k = Some z ->
           nth_error pts ((i * length xs + j) * length zs + k)
           = Some [x; y; z]).
Proof.
  eexists. 
  assert (H : bbox3d 1 [[0; 0; 0]; [2; 1; 2]]%float
              = Ok [[0; 0; 0]; [0; 0; 1]; [1; 0; 0]; [1; 0; 1]]%float)
    by (vm_compute; reflexivity).
  destruct (bbox3d_is_full_grid _ _ _ H) as (xs & ys & zs & R).
  exists xs, ys, zs. split; [exact H | exact R].
Defined.

(** ** Session construction, continued *)

(** X4. A bounding box with fewer than two rows makes the constructor raise
    [IndexError], whatever the other arguments are. *)
Theorem init_needs_two_box_rows (W : World) (fd fh : point -> float)
        (h0 : float) (pfix : option np.ndarray) (bbox : np.ndarray) (freq : Z)
        (dptol ttol Fscale deltat : float) (g : rng) :
  length bbox < 2 ->
  DISTMESH.__init__ fd fh h0 pfix (Some bbox) freq dptol ttol Fscale deltat g
  = Raise IndexError.
Proof.
  intros Hlen. unfold DISTMESH.__init__.
  destruct bbox as [|r [|r' bbox]]; [reflexivity | | simpl in Hlen; lia].
  cbn [shape1 forallb]. cbn [bind].
  destruct r as [|x r].
  - reflexivity.
  - destruct (length (x :: r) =? 2); reflexivity.
Qed.

Lemma init_needs_two_box_rows_witness :
  DISTMESH.__init__ (W := demo) circle area_uniform 1 None
                    (Some [[0; 0]]%float) 30 0.001 0.1 1.2 0.2 0
  = Raise IndexError.
Proof.
  apply (init_needs_two_box_rows demo). simpl. lia.
Defined.

Lemma combinations2_in (l : list nat) (i j : nat) :
  StronglySorted (holds Nat.ltb) l ->
  (In (i, j) (np.combinations2 l) <-> In i l /\ In j l /\ i < j).
Proof.
  induction 1 as [|x l Hs IH Hx]; simpl; [tauto|].
  rewrite in_app_iff, in_map_iff, IH.
  rewrite Forall_forall in Hx. unfold holds in Hx. split.
  - intros [(y & [= <- <-] & Hy) | (Hi & Hj & Hlt)].
    + specialize (Hx _ Hy). apply Nat.ltb_lt in Hx. auto.
    + auto.
  - intros ([<-|Hi] & [<-|Hj] & Hlt).
    + lia.
    + left. exists j. auto.
    + specialize (Hx _ Hi). apply Nat.ltb_lt in Hx. lia.
    + right. auto.
Qed.

Lemma remove_duplicate_nodes_in {W : World} (pfix p : np.ndarray)
      (geps : float) (q : point) :
  In q (remove_duplicate_nodes p pfix geps) ->
  In q p /\ clear_of pfix geps q = true.
Proof.
  unfold remove_duplicate_nodes, clear_of. revert p.
  induction pfix as [|row pfix IH]; intros p; simpl; [auto|].
  intros H. apply IH in H. destruct H as [H Hc].
  apply filter_In in H. destruct H as [H Hrow]. now rewrite Hrow.
Qed.

(** X5. A session that the constructor returns has the fixed points as its
    first [nfix] rows, in the caller's order; every further row is a lattice
    point that the distance field keeps ([fd < geps]) and that is farther
    than [geps] from every fixed point; [N] counts the rows, the snapshot
    [pold] equals the points, and the edge combinations are the pairs
    [i < j <= Ndim]. *)
Theorem init_builds_point_set (W : World) (fd fh : point -> float)
        (h0 : float) (pfix bbox : option np.ndarray) (freq : Z)
        (dptol ttol Fscale deltat : float) (g g' : rng) (s : DISTMESH.self) :
  DISTMESH.__init__ fd fh h0 pfix bbox freq dptol ttol Fscale deltat g
  = Ok (s, g') ->
  exists pts,
    lattice h0 bbox = Ok pts
    /\ DISTMESH.pfix s = match pfix with None => [] | Some f => f end
    /\ DISTMESH.nfix s = length (DISTMESH.pfix s)
    /\ DISTMESH.N s = length (DISTMESH.p s)
    /\ firstn (DISTMESH.nfix s) (DISTMESH.p s) = DISTMESH.pfix s
    /\ Forall (fun q => In q pts
                        /\ (fd q <? 0.001 * h0)%float = true
                        /\ clear_of (DISTMESH.pfix s) (0.001 * h0)%float q
                           = true)
              (skipn (DISTMESH.nfix s) (DISTMESH.p s))
    /\ DISTMESH.pold s = DISTMESH.p s
    /\ (forall i j, In (i, j) (DISTMESH.edge_combinations s) <->
                    i < j <= DISTMESH.Ndim s).
Proof.
  unfold DISTMESH.__init__, lattice. intros H.
  bind_as H Ndim HNdim. rewrite HNdim. cbn [bind].
  bind_as H pts Hpts. rewrite Hpts.
  destruct (rand _ g) as [u g1].
  bind_as H r0max Hmax. bind_as H selection Hsel. bind_as H kept Hkept.
  bind_as H s1 Htri. injection H as <- <-.
  set (pf := match pfix with Some f => f | None => [] end) in *.
  set (geps := (0.001 * h0)%float) in *.
  assert (Hp : (if 0 <? length pf
                then pf ++ remove_duplicate_nodes kept pf geps else kept)
               = pf ++ remove_duplicate_nodes kept pf geps).
  { destruct pf as [|r pf']; reflexivity. }
  rewrite Hp in Htri. clear Hp.
  apply triangulate_inv in Htri.
  destruct Htri as (pold' & t' & per & Ha & _ & _ & ->). cbn in *.
  unfold assign_rows in Ha. rewrite inf_ones_length, Nat.eqb_refl in Ha.
  injection Ha as <-.
  exists pts. split; [reflexivity|]. split; [reflexivity|].
  split; [reflexivity|]. split; [reflexivity|]. split.
  { rewrite firstn_app, firstn_all, Nat.sub_diag. simpl. apply app_nil_r. }
  split.
  { rewrite skipn_app, skipn_all, Nat.sub_diag. simpl.
    apply Forall_forall. intros q Hq.
    apply remove_duplicate_nodes_in in Hq. destruct Hq as [Hq Hclear].
    unfold np.compress in Hkept.
    destruct (length _ =? length selection); [|discriminate].
    injection Hkept as <-. apply select_in, filter_In in Hq. tauto. }
  split; [reflexivity|].
  intros i j. rewrite combinations2_in by apply seq_sorted.
  rewrite !in_seq. lia.
Qed.

(** ** The triangulation controller, continued *)

Lemma take_cases {A : Type} (d : A) (a : list A) (idx : list nat) :
  (Forall (fun i => i < length a) idx
   /\ np.take a idx = Ok (map (fun i => nth i a d) idx))
  \/ (~ Forall (fun i => i < length a) idx
      /\ np.take a idx = Raise IndexError).
Proof.
  induction idx as [|i idx IH]; simpl.
  - left. split; [constructor | reflexivity].
  - destruct (nth_error a i) as [x|] eqn:E.
    + assert (Hi : i < length a) by (apply nth_error_Some; congruence).
      destruct IH as [[Hv Ht] | [Hv Ht]]; rewrite Ht; cbn [bind].
      * left. split; [now constructor|].
        rewrite (nth_error_nth a i d E). reflexivity.
      * right. split; [|reflexivity].
        intros H. apply Forall_cons_iff in H. tauto.
    + right. split; [|reflexivity].
      intros H. apply Forall_cons_iff in H. destruct H as [H _].
      apply nth_error_None in E. lia.
Qed.

Lemma centroids_cases {W : World} (pts : np.ndarray) (tri : list (list nat)) :
  (valid_simplices pts tri
   /\ mapM (fun simplex => verts <- np.take pts simplex ;;
                           Ok (centroid (width pts) verts)) tri
      = Ok (map (simplex_centroid pts) tri))
  \/ (~ valid_simplices pts tri
      /\ mapM (fun simplex => verts <- np.take pts simplex ;;
                              Ok (centroid (width pts) verts)) tri
         = Raise IndexError).
Proof.
  unfold valid_simplices. induction tri as [|simplex tri IH]; simpl.
  - left. split; [constructor | reflexivity].
  - destruct (take_cases [] pts simplex) as [[Hv Ht] | [Hv Ht]];
      rewrite Ht; cbn [bind].
    + destruct IH as [[Hvs Hm] | [Hvs Hm]]; rewrite Hm; cbn [bind].
      * left. split; [now constructor | reflexivity].
      * right. split; [|reflexivity].
        intros H. apply Forall_cons_iff in H. tauto.
    + right. split; [|reflexivity].
      intros H. apply Forall_cons_iff in H. tauto.
Qed.

Lemma select_map_filter {A : Type} (f : A -> bool) (l : list A) :
  np.select l (map f l) = filter f l.
Proof.
  induction l as [|x l IH]; simpl; [reflexivity|].
  destruct (f x); now rewrite IH.
Qed.

Lemma delaunay_filter {W : World} (pts : np.ndarray) (fd : point -> float)
      (geps : float) (tri : list (list nat)) :
  Delaunay pts = Ok tri ->
  valid_simplices pts tri ->
  DISTMESH._delaunay pts fd geps = Ok (filter (keeps_simplex pts fd geps) tri).
Proof.
  intros Hd Hv. unfold DISTMESH._delaunay. rewrite Hd. cbn [bind].
  destruct (centroids_cases pts tri) as [[_ Hm] | [Hn _]]; [|contradiction].
  rewrite Hm. cbn [bind]. rewrite map_map. f_equal.
  exact (select_map_filter (keeps_simplex pts fd geps) tri).
Qed.

(** X6. Of the simplices the oracle returns, [_delaunay] keeps, in their
    order, exactly those whose centroid is strictly inside the domain
    ([fd(centroid) < -geps]); a simplex with an index that addresses no
    point makes it raise [IndexError]. *)
Theorem delaunay_keeps_interior_simplices (W : World) (pts : np.ndarray)
        (fd : point -> float) (geps : float) (tri : list (list nat)) :
  Delaunay pts = Ok tri ->
  (valid_simplices pts tri ->
   DISTMESH._delaunay pts fd geps
   = Ok (filter (keeps_simplex pts fd geps) tri))
  /\ (~ valid_simplices pts tri ->
      DISTMESH._delaunay pts fd geps = Raise IndexError).
Proof.
  intros Hd. split; intros Hv.
  - unfold DISTMESH._delaunay. rewrite Hd. cbn [bind].
    destruct (centroids_cases pts tri) as [[_ Hm] | [Hn _]]; [|contradiction].
    rewrite Hm. cbn [bind]. rewrite map_map. f_equal.
    exact (select_map_filter (keeps_simplex pts fd geps) tri).
  - unfold DISTMESH._delaunay. rewrite Hd. cbn [bind].
    destruct (centroids_cases pts tri) as [[Hy _] | [_ Hm]]; [contradiction|].
    now rewrite Hm.
Qed.

Lemma mapM_in_source {A B : Type} (f : A -> result B) (l : list A)
      (ys : list B) (x : A) :
  mapM f l = Ok ys -> In x l -> exists y, In y ys /\ f x = Ok y.
Proof.
  intros H. apply mapM_ok in H.
  induction H as [|x' y' l ys Hxy _ IH]; simpl; [tauto|].
  intros [->|Hin].
  - exists y'. auto.
  - destruct (IH Hin) as (y & Hy & Hf). exists y. auto.
Qed.

(** X7. After [triangulate] the bars are exactly the vertex pairs of the
    retained simplices at the positions of [edge_combinations], each with
    its smaller index first, and they are stored in increasing
    lexicographic order. *)
Theorem triangulate_bars_are_simplex_edges (W : World) (s s' : DISTMESH.self) :
  DISTMESH.triangulate s = Ok s' ->
  StronglySorted (holds np.pair_ltb) (DISTMESH.bars s')
  /\ (forall b, In b (DISTMESH.bars s') <->
                exists simplex ij a c,
                  In simplex (DISTMESH.t s')
                  /\ In ij (DISTMESH.edge_combinations s)
                  /\ nth_error simplex (fst ij) = Some a
                  /\ nth_error simplex (snd ij) = Some c
                  /\ b = sort_pair (a, c)).
Proof.
  intros H. apply triangulate_inv in H.
  destruct H as (pold' & t' & per & _ & _ & Hper & ->). simpl.
  split; [apply (unique_by_sorted _ _ pair_ltb_trans pair_ltb_total)|].
  intros b. unfold np.unique_rows.
  rewrite (unique_by_in _ _ pair_ltb_total), in_map_iff. split.
  - intros (e & <- & He). apply in_concat in He.
    destruct He as (es & Hes & He).
    destruct (mapM_in _ _ _ _ Hper Hes) as (simplex & Hs & Hedges).
    destruct (mapM_in _ _ _ _ Hedges He) as (ij & Hij & Hpair).
    destruct (nth_error simplex (fst ij)) as [a|] eqn:E1; [|discriminate].
    destruct (nth_error simplex (snd ij)) as [c|] eqn:E2; [|discriminate].
    injection Hpair as <-. exists simplex, ij, a, c. auto.
  - intros (simplex & ij & a & c & Hs & Hij & Ha & Hc & ->).
    exists (a, c). split; [reflexivity|].
    destruct (mapM_in_source _ _ _ _ Hper Hs) as (es & Hes & Hedges).
    destruct (mapM_in_source _ _ _ _ Hedges Hij) as (e & He & Hpair).
    rewrite Ha, Hc in Hpair. injection Hpair as <-.
    apply in_concat. exists es. auto.
Qed.

Lemma assign_rows_again (target value mid : np.ndarray) :
  assign_rows target value = Ok mid -> assign_rows mid value = Ok mid.
Proof.
  unfold assign_rows. destruct (length value =? length target) eqn:E.
  - intros [= <-]. now rewrite Nat.eqb_refl.
  - destruct value as [|r [|r' value]]; try discriminate.
    intros [= <-]. rewrite repeat_length, E. reflexivity.
Qed.

Lemma triangulate_again {W : World} (s s' : DISTMESH.self) :
  DISTMESH.triangulate s = Ok s' -> DISTMESH.triangulate s' = Ok s'.
Proof.
  intros H. apply triangulate_inv in H.
  destruct H as (pold' & t' & per & Ha & Hd & Hper & ->).
  unfold DISTMESH.triangulate. simpl.
  rewrite (assign_rows_again _ _ _ Ha), Hd. cbn [bind]. rewrite Hper.
  reflexivity.
Qed.

(** X8. [triangulate] is idempotent: retriangulating a session that has
    just been triangulated, with no move in between, returns the same
    session, with the same snapshot, simplices and bars. *)
Theorem triangulate_is_idempotent (W : World) (s s' : DISTMESH.self) :
  DISTMESH.triangulate s = Ok s' -> DISTMESH.triangulate s' = Ok s'.
Proof.
  intros H. apply triangulate_inv in H.
  destruct H as (pold' & t' & per & Ha & Hd & Hper & ->).
  unfold DISTMESH.triangulate. simpl.
  rewrite (assign_rows_again _ _ _ Ha), Hd. cbn [bind]. rewrite Hper.
  reflexivity.
Qed.

(** ** The retriangulation test *)

Lemma sub_self (x : float) : finite_coord x = true -> (x - x)%float = 0%float.
Proof.
  unfold finite_coord. rewrite andb_true_iff, !ltb_spec. intros [Hlo Hhi].
  rewrite <- (SF2Prim_Prim2SF (x - x)), sub_spec.
  destruct (Prim2SF x) as [sx | sx | | sx m e].
  - destruct sx; reflexivity.
  - destruct sx; discriminate.
  - discriminate.
  - unfold SF64sub, SFsub. rewrite Z.sub_diag. reflexivity.
Qed.

Lemma dist_of_self {W : World} (q : point) :
  sums_zeros W -> Forall (fun x => finite_coord x = true) q ->
  dist (vsub q q) = 0%float.
Proof.
  intros Hsum Hq. unfold dist, vsub. rewrite Hsum; [reflexivity|].
  apply Forall_map. induction Hq as [|x q Hx _ IH]; simpl; constructor.
  - now rewrite (sub_self x Hx).
  - exact IH.
Qed.

Lemma max_of_zeros (l : list float) :
  l <> [] -> Forall (fun x => x = 0%float) l -> np.max l = Ok 0%float.
Proof.
  destruct l as [|x l]; [contradiction|]. intros _ H.
  apply Forall_cons_iff in H. destruct H as [-> Hl]. simpl. f_equal.
  induction l as [|y l IH]; simpl; [reflexivity|].
  apply Forall_cons_iff in Hl. destruct Hl as [-> Hl].
  change (np.maximum 0 0) with 0%float. now apply IH.
Qed.

Lemma zip_with_self {A B : Type} (f : A -> A -> B) (l : list A) :
  np.zip_with f l l = map (fun x => f x x) l.
Proof. induction l as [|x l IH]; simpl; [reflexivity | now rewrite IH]. Qed.

(** X9. Right after a retriangulation [is_retriangulate] measures no
    drift: for a non-empty Point Set with finite coordinates it answers
    [0 > h0 * ttol], which is false for every threshold that is not
    negative. *)
Theorem no_retriangulation_without_drift (W : World) (s s' : DISTMESH.self) :
  sums_zeros W ->
  rows_agree s ->
  DISTMESH.p s <> [] ->
  Forall (Forall (fun x => finite_coord x = true)) (DISTMESH.p s) ->
  DISTMESH.triangulate s = Ok s' ->
  DISTMESH.is_retriangulate s'
  = Ok (DISTMESH.h0 s * DISTMESH.ttol s <? 0)%float.
Proof.
  intros Hsum Hr Hne Hfin H. apply triangulate_inv in H.
  destruct H as (pold' & t' & per & Ha & _ & _ & ->).
  unfold assign_rows in Ha. rewrite Hr, Nat.eqb_refl in Ha. injection Ha as <-.
  unfold DISTMESH.is_retriangulate. simpl.
  rewrite broadcast_same_length by reflexivity. cbn [bind].
  rewrite zip_with_self, map_map, max_of_zeros.
  - reflexivity.
  - destruct (DISTMESH.p s); [contradiction | discriminate].
  - apply Forall_map. eapply Forall_impl; [|exact Hfin].
    intros q Hq. now apply dist_of_self.
Qed.

(** X10. For a session whose snapshot has one row per point,
    [is_retriangulate] returns an answer exactly when the Point Set is not
    empty; on an empty Point Set it raises [ValueError]. *)
Theorem is_retriangulate_needs_points (W : World) (s : DISTMESH.self) :
  rows_agree s ->
  (DISTMESH.p s = [] -> DISTMESH.is_retriangulate s = Raise ValueError)
  /\ (DISTMESH.p s <> [] -> exists b, DISTMESH.is_retriangulate s = Ok b).
Proof.
  unfold rows_agree. intros Hr. unfold DISTMESH.is_retriangulate.
  rewrite broadcast_same_length by congruence. cbn [bind]. split.
  - intros Hp. rewrite Hp. reflexivity.
  - intros Hp. destruct (DISTMESH.p s) as [|q p]; [contradiction|].
    destruct (DISTMESH.pold s) as [|q' p']; [discriminate|].
    simpl. eauto.
Qed.

(** ** The density controller, continued *)

Lemma endpoints_in (bars : list (nat * nat)) (i : nat) :
  In i (flat_map (fun b => [fst b; snd b]) bars) <-> endpoint_of bars i.
Proof.
  unfold endpoint_of. rewrite in_flat_map. split.
  - intros (b & Hb & Hi). exists b. simpl in Hi. tauto.
  - intros (b & Hb & Hi). exists b. simpl. tauto.
Qed.

Lemma filter_length_le {A : Type} (f : A -> bool) (l : list A) :
  length (filter f l) <= length l.
Proof.
  induction l as [|x l IH]; simpl; [lia|]. destruct (f x); simpl; lia.
Qed.

(** The index array of the rows [density_control] keeps. *)
Lemma density_control_inv (s s' : DISTMESH.self) (L L0 : list float) :
  DISTMESH.density_control s L L0 = Ok s' ->
  exists ixout flagged,
    np.broadcast (fun l0 l => 2 * l <? l0)%float L0 L = Ok ixout
    /\ np.compress (DISTMESH.bars s) ixout = Ok flagged
    /\ np.take (DISTMESH.p s)
               (np.setdiff1d (np.arange (DISTMESH.N s))
                  (np.setdiff1d (flat_map (fun b => [fst b; snd b]) flagged)
                                (np.arange (DISTMESH.nfix s))))
       = Ok (DISTMESH.p s')
    /\ s' = DISTMESH.set_points s (DISTMESH.p s') (length (DISTMESH.p s'))
              (inf_ones (length (DISTMESH.p s')) (DISTMESH.Ndim s)).
Proof.
  unfold DISTMESH.density_control. intros H.
  bind_as H ixout Hix. bind_as H flagged Hf. bind_as H p' Hp'.
  injection H as <-. exists ixout, flagged. simpl. auto.
Qed.

Lemma survivors_in (n nfix : nat) (ends : list nat) (i : nat) :
  In i (np.setdiff1d (np.arange n)
                     (np.setdiff1d ends (np.arange nfix)))
  <-> i < n /\ (i < nfix \/ ~ In i ends).
Proof.
  rewrite !setdiff1d_in. unfold np.arange. rewrite !in_seq. split.
  - intros [Hi Hn]. split; [lia|].
    destruct (Nat.lt_ge_cases i nfix) as [Hlt|Hge]; [now left|].
    right. intros He. apply Hn. split; [exact He | lia].
  - intros [Hi [Hlt|Hne]]; (split; [lia|]); intros [He Hn]; [lia | tauto].
Qed.

Lemma survivors_sorted (n : nat) (ixdel : list nat) :
  increasing (np.setdiff1d (np.arange n) ixdel).
Proof.
  unfold increasing, np.setdiff1d. rewrite unique_arange.
  apply filter_sorted, seq_sorted.
Qed.

Lemma survivors_length (n : nat) (ixdel : list nat) :
  length (np.setdiff1d (np.arange n) ixdel) <= n.
Proof.
  unfold np.setdiff1d. rewrite unique_arange.
  etransitivity; [apply filter_length_le|]. now rewrite length_seq.
Qed.

(** X11. [density_control] deletes exactly the free endpoints of the
    flagged bars: a row survives if and only if its index is below [nfix]
    or it is an endpoint of no bar with [L0 > 2 L].  The survivors keep
    their order, [N] and [pold] are reset to the new row count, and the
    simplices and bars are left as they were. *)
Theorem density_control_deletes_free_endpoints (s : DISTMESH.self)
        (L L0 : list float) :
  counts_agree s ->
  length L = length (DISTMESH.bars s) ->
  length L0 = length (DISTMESH.bars s) ->
  exists keep s',
    DISTMESH.density_control s L L0 = Ok s'
    /\ np.take (DISTMESH.p s) keep = Ok (DISTMESH.p s')
    /\ increasing keep
    /\ (forall i, In i keep <->
                  i < length (DISTMESH.p s)
                  /\ (i < DISTMESH.nfix s
                      \/ ~ endpoint_of (flagged_bars s L L0) i))
    /\ length (DISTMESH.p s') <= length (DISTMESH.p s)
    /\ DISTMESH.N s' = length (DISTMESH.p s')
    /\ DISTMESH.pold s'
       = inf_ones (length (DISTMESH.p s')) (DISTMESH.Ndim s)
    /\ DISTMESH.bars s' = DISTMESH.bars s
    /\ DISTMESH.t s' = DISTMESH.t s.
Proof.
  unfold counts_agree. intros HN HL HL0.
  unfold DISTMESH.density_control.
  rewrite broadcast_same_length by congruence. cbn [bind].
  unfold np.compress.
  replace (length (DISTMESH.bars s)
           =? length (np.zip_with (fun l0 l => (2 * l <? l0)%float) L0 L))
    with true
    by (symmetry; apply Nat.eqb_eq; rewrite zip_with_length; lia).
  cbn [bind]. fold (flagged_bars s L L0).
  set (ends := flat_map (fun b => [fst b; snd b]) (flagged_bars s L L0)).
  set (keep := np.setdiff1d (np.arange (DISTMESH.N s))
                            (np.setdiff1d ends (np.arange (DISTMESH.nfix s)))).
  assert (Hkeep : forall i, In i keep <->
                            i < length (DISTMESH.p s)
                            /\ (i < DISTMESH.nfix s
                                \/ ~ endpoint_of (flagged_bars s L L0) i)).
  { intros i. unfold keep. rewrite survivors_in, HN.
    unfold ends. now rewrite endpoints_in. }
  assert (Hvalid : Forall (fun i => i < length (DISTMESH.p s)) keep).
  { apply Forall_forall. intros i Hi. now apply Hkeep in Hi. }
  rewrite (take_valid [] _ _ Hvalid). cbn [bind].
  exists keep. eexists. split; [reflexivity|]. cbn.
  split; [exact (take_valid [] _ _ Hvalid)|].
  split; [apply survivors_sorted|]. split; [exact Hkeep|].
  split.
  { rewrite length_map, <- HN. apply survivors_length. }
  repeat split; reflexivity.
Qed.

Lemma density_control_deletes_free_endpoints_witness :
  exists keep s',
    DISTMESH.density_control crowded_session [1; 1; 1]%float [3; 0; 0]%float
    = Ok s'
    /\ np.take (DISTMESH.p crowded_session) keep = Ok (DISTMESH.p s')
    /\ increasing keep
    /\ (forall i, In i keep <->
                  i < length (DISTMESH.p crowded_session)
                  /\ (i < DISTMESH.nfix crowded_session
                      \/ ~ endpoint_of
                           (flagged_bars crowded_session
                                         [1; 1; 1]%float [3; 0; 0]%float) i))
    /\ length (DISTMESH.p s') <= length (DISTMESH.p crowded_session)
    /\ DISTMESH.N s' = length (DISTMESH.p s')
    /\ DISTMESH.pold s'
       = inf_ones (length (DISTMESH.p s')) (DISTMESH.Ndim crowded_session)
    /\ DISTMESH.bars s' = DISTMESH.bars crowded_session
    /\ DISTMESH.t s' = DISTMESH.t crowded_session.
Proof.
  apply (density_control_deletes_free_endpoints crowded_session
           [1; 1; 1]%float [3; 0; 0]%float); reflexivity.
Defined.

(** X12. When no bar is flagged, [density_control] deletes nothing: the
    Point Set is returned as it was, and only the snapshot is reset to
    infinities. *)
Theorem density_control_without_crowding (s : DISTMESH.self)
        (L L0 : list float) :
  counts_agree s ->
  length L = length (DISTMESH.bars s) ->
  length L0 = length (DISTMESH.bars s) ->
  flagged_bars s L L0 = [] ->
  exists s',
    DISTMESH.density_control s L L0 = Ok s'
    /\ DISTMESH.p s' = DISTMESH.p s
    /\ DISTMESH.N s' = DISTMESH.N s
    /\ DISTMESH.pold s'
       = inf_ones (length (DISTMESH.p s)) (DISTMESH.Ndim s).
Proof.
  unfold counts_agree. intros HN HL HL0 Hnone.
  unfold DISTMESH.density_control.
  rewrite broadcast_same_length by congruence. cbn [bind].
  unfold np.compress.
  replace (length (DISTMESH.bars s)
           =? length (np.zip_with (fun l0 l => (2 * l <? l0)%float) L0 L))
    with true
    by (symmetry; apply Nat.eqb_eq; rewrite zip_with_length; lia).
  cbn [bind]. fold (flagged_bars s L L0). rewrite Hnone. simpl flat_map.
  assert (Hkeep : np.setdiff1d (np.arange (DISTMESH.N s))
                               (np.setdiff1d [] (np.arange (DISTMESH.nfix s)))
                  = seq 0 (length (DISTMESH.p s))).
  { unfold np.setdiff1d at 1. rewrite unique_arange, HN.
    apply filter_all. intros i _. reflexivity. }
  rewrite Hkeep.
  rewrite (take_valid [] (DISTMESH.p s) (seq 0 (length (DISTMESH.p s)))).
  2:{ apply Forall_forall. intros i Hi. apply in_seq in Hi. lia. }
  cbn [bind].
  rewrite (map_nth_seq [] _ _ (Nat.le_refl _)), firstn_all.
  eexists. split; [reflexivity|]. simpl. auto.
Qed.

Lemma density_control_without_crowding_witness :
  exists s',
    DISTMESH.density_control crowded_session [1; 1; 1]%float [1; 1; 1]%float
    = Ok s'
    /\ DISTMESH.p s' = DISTMESH.p crowded_session
    /\ DISTMESH.N s' = DISTMESH.N crowded_session
    /\ DISTMESH.pold s'
       = inf_ones (length (DISTMESH.p crowded_session))
                  (DISTMESH.Ndim crowded_session).
Proof.
  apply (density_control_without_crowding crowded_session
           [1; 1; 1]%float [1; 1; 1]%float); reflexivity.
Defined.

(** ** Row counts along a run *)

Lemma survivors_fixed (n nfix : nat) (ends : list nat) :
  nfix <= n ->
  nfix <= length (np.setdiff1d (np.arange n)
                               (np.setdiff1d ends (np.arange nfix))).
Proof.
  intros Hle.
  set (keep := np.setdiff1d (np.arange n) (np.setdiff1d ends (np.arange nfix))).
  assert (Hincl : incl (seq 0 nfix) keep).
  { intros i Hi. apply in_seq in Hi. apply survivors_in. lia. }
  rewrite <- (length_seq nfix 0) at 1.
  apply NoDup_incl_length; [apply seq_NoDup | exact Hincl].
Qed.

Lemma density_control_bounds (s s' : DISTMESH.self) (L L0 : list float) :
  counts_agree s -> fixed_fit s ->
  DISTMESH.density_control s L L0 = Ok s' ->
  fixed_fit s' /\ length (DISTMESH.p s') <= length (DISTMESH.p s).
Proof.
  unfold counts_agree, fixed_fit. intros HN Hfit H.
  apply density_control_inv in H.
  destruct H as (ixout & flagged & _ & _ & Htake & ->). simpl.
  apply take_length in Htake. rewrite Htake. split.
  - apply survivors_fixed. lia.
  - rewrite <- HN. apply survivors_length.
Qed.

Lemma move_p_length {W : World} (s s' : DISTMESH.self) (Ftot : np.ndarray)
      (c : bool) :
  DISTMESH.move_p s Ftot = Ok (s', c) ->
  length (DISTMESH.p s') = length (DISTMESH.p s)
  /\ DISTMESH.nfix s' = DISTMESH.nfix s.
Proof.
  unfold DISTMESH.move_p. intros H.
  bind_as H p1 Hp1. bind_as H interior Hi. bind_as H m Hm.
  injection H as <- _. simpl. apply iadd_length in Hp1. rewrite <- Hp1.
  split; [|reflexivity].
  destruct (0 <? _); [|reflexivity].
  rewrite zip_with_length, !length_map. lia.
Qed.

Lemma relax_bounds {W : World} (freq : Z) (n : nat) :
  forall (i : Z) (dm out : DISTMESH.self),
    counts_agree dm -> fixed_fit dm ->
    relax freq n i dm = Ok out ->
    fixed_fit out /\ length (DISTMESH.p out) <= length (DISTMESH.p dm).
Proof.
  induction n as [|n IH]; intros i dm out Hc Hfit H.
  - injection H as <-. auto.
  - apply relax_step in H.
    destruct H as (re & dm1 & L & L0 & barvec & _ & Ht & _ & Hrest).
    assert (H1 : counts_agree dm1 /\ fixed_fit dm1
                 /\ length (DISTMESH.p dm1) = length (DISTMESH.p dm)).
    { destruct re.
      - pose proof (triangulate_count _ _ Hc Ht) as Hc1.
        apply triangulate_inv in Ht.
        destruct Ht as (? & ? & ? & _ & _ & _ & ->). auto.
      - injection Ht as <-. auto. }
    destruct H1 as (Hc1 & Hfit1 & Hlen1).
    destruct Hrest as [(dm2 & Hd & Hx) | (Ftot & dm2 & c & _ & Hm & Hx)].
    + pose proof (density_control_count _ _ _ _ Hd) as Hc2.
      destruct (density_control_bounds _ _ _ _ Hc1 Hfit1 Hd) as [Hfit2 Hle].
      destruct (IH _ _ _ Hc2 Hfit2 Hx). split; [assumption | lia].
    + pose proof (move_p_count _ _ _ _ Hc1 Hm) as Hc2.
      destruct (move_p_length _ _ _ _ Hm) as [Hlen2 Hnfix2].
      assert (Hfit2 : fixed_fit dm2).
      { unfold fixed_fit in *. lia. }
      destruct c.
      * injection Hx as <-. split; [assumption | lia].
      * destruct (IH _ _ _ Hc2 Hfit2 Hx). split; [assumption | lia].
Qed.

Lemma build_inv {W : World} (fd fh : point -> float)
      (pfix bbox : option np.ndarray) (h0 : float) (freq : Z)
      (dptol ttol Fscale deltat : float) (maxiter : Z) (g : rng)
      (p : np.ndarray) (t : list (list nat)) :
  build fd fh pfix bbox h0 freq dptol ttol Fscale deltat maxiter g = Ok (p, t) ->
  exists dm0 g' dm dm',
    DISTMESH.__init__ fd fh h0 pfix bbox freq dptol ttol Fscale deltat g
    = Ok (dm0, g')
    /\ relax freq (Z.to_nat maxiter) 0 dm0 = Ok dm
    /\ DISTMESH.triangulate dm = Ok dm'
    /\ p = DISTMESH.p dm' /\ t = DISTMESH.t dm'.
Proof.
  unfold build. intros H.
  bind_as H r Hinit. destruct r as [dm0 g'].
  bind_as H dm Hrelax. bind_as H dm' Htri. injection H as <- <-.
  exists dm0, g', dm, dm'. auto.
Qed.

(** X13. No run of [build] adds or loses a fixed row and none adds a point:
    the returned Point Set has at least as many rows as there are fixed
    points and at most as many as the session had after construction. *)
Theorem build_point_count_bounds (W : World) (fd fh : point -> float)
        (pfix bbox : option np.ndarray) (h0 : float) (freq : Z)
        (dptol ttol Fscale deltat : float) (maxiter : Z) (g : rng)
        (p : np.ndarray) (t : list (list nat)) :
  build fd fh pfix bbox h0 freq dptol ttol Fscale deltat maxiter g = Ok (p, t) ->
  exists dm0 g',
    DISTMESH.__init__ fd fh h0 pfix bbox freq dptol ttol Fscale deltat g
    = Ok (dm0, g')
    /\ length (match pfix with None => [] | Some f => f end) <= length p
    /\ length p <= length (DISTMESH.p dm0).
Proof.
  intros H. apply build_inv in H.
  destruct H as (dm0 & g' & dm & dm' & Hinit & Hrelax & Htri & -> & _).
  exists dm0, g'. split; [exact Hinit|].
  pose proof (init_count _ _ _ _ _ _ _ _ _ _ _ _ _ Hinit) as Hc.
  apply init_inv in Hinit.
  destruct Hinit as (s0 & pts & Ht0 & _ & _ & _ & _ & _ & _ & Hpf & Hnf & _
                     & _ & Hfirst).
  assert (Hfit0 : fixed_fit s0).
  { unfold fixed_fit. pose proof (f_equal (@length _) Hfirst) as Hl.
    rewrite length_firstn in Hl. lia. }
  assert (Hfit : fixed_fit dm0 /\ DISTMESH.nfix dm0 = DISTMESH.nfix s0).
  { apply triangulate_inv in Ht0.
    destruct Ht0 as (? & ? & ? & _ & _ & _ & ->). auto. }
  destruct Hfit as [Hfit Hn0].
  destruct (relax_bounds _ _ _ _ _ Hc Hfit Hrelax) as [Hfitr Hle].
  pose proof (relax_config _ _ _ _ _ Hrelax) as (_ & _ & _ & _ & _ & _ & _ & Hn).
  apply triangulate_inv in Htri.
  destruct Htri as (? & ? & ? & _ & _ & _ & ->). simpl.
  unfold fixed_fit in Hfitr. rewrite Hpf in Hnf.
  split; [rewrite <- Hnf, <- Hn0, <- Hn; exact Hfitr | exact Hle].
Qed.

(** ** The point updater, continued *)

Lemma zip_with_nth_inv {A B C : Type} (f : A -> B -> C) (xs : list A)
      (ys : list B) (k : nat) (x : A) :
  length xs = length ys -> nth_error xs k = Some x ->
  exists y, nth_error ys k = Some y
            /\ nth_error (np.zip_with f xs ys) k = Some (f x y).
Proof.
  revert ys k. induction xs as [|x' xs IH]; intros [|y' ys] [|k] Hl Hx;
    simpl in *; try discriminate.
  - injection Hx as ->. eauto.
  - apply IH; [lia | assumption].
Qed.

(** X14. [move_p] adds [deltat * Ftot] to every row, then moves exactly the
    rows whose distance value is positive back by their boundary
    projection; it changes neither the number of rows nor [N], the
    snapshot, the bars or the simplices.  Its flag says whether the largest
    [|deltat * F| / h0] over the strictly interior rows is below [dptol]. *)
Theorem move_p_updates_positions (W : World) (s s' : DISTMESH.self)
        (Ftot : np.ndarray) (c : bool) :
  length Ftot = length (DISTMESH.p s) ->
  DISTMESH.move_p s Ftot = Ok (s', c) ->
  (forall i q, nth_error (moved s Ftot) i = Some q ->
               nth_error (DISTMESH.p s') i
               = Some (if (0 <? DISTMESH.fd s q)%float
                       then vsub q (edge_project (DISTMESH.fd s) q)
                       else q))
  /\ length (DISTMESH.p s') = length (DISTMESH.p s)
  /\ DISTMESH.N s' = DISTMESH.N s
  /\ DISTMESH.pold s' = DISTMESH.pold s
  /\ DISTMESH.bars s' = DISTMESH.bars s
  /\ DISTMESH.t s' = DISTMESH.t s
  /\ exists m,
      np.max (map (fun v => dist (vscale (DISTMESH.deltat s) v)
                            / DISTMESH.h0 s)%float
                  (np.select Ftot (map (strictly_interior s) (moved s Ftot))))
      = Ok m
      /\ c = (m <? DISTMESH.dptol s)%float.
Proof.
  intros Hlen H.
  destruct (move_p_length _ _ _ _ H) as [Hrows _].
  unfold DISTMESH.move_p in H.
  rewrite iadd_same_length in H by now rewrite length_map.
  fold (moved s Ftot) in H. cbn [bind] in H.
  bind_as H interior Hi. bind_as H m Hm. injection H as <- <-. simpl.
  split.
  { intros i q Hq.
    set (ix := map (fun x => (0 <? x)%float)
                   (map (DISTMESH.fd s) (moved s Ftot))).
    assert (Hix : nth_error ix i = Some (0 <? DISTMESH.fd s q)%float).
    { unfold ix. rewrite map_map, nth_error_map, Hq. reflexivity. }
    destruct (0 <? count_occ bool_dec ix true) eqn:Hcount.
    - now rewrite (zip_with_nth _ _ _ _ _ _ Hq Hix).
    - apply Nat.ltb_ge in Hcount.
      assert (Hnone : ~ In true ix).
      { intros Hin. apply (count_occ_In bool_dec) in Hin. lia. }
      destruct (0 <? DISTMESH.fd s q)%float; [|exact Hq].
      exfalso. apply Hnone. eapply nth_error_In; exact Hix. }
  split; [exact Hrows|]. repeat (split; [reflexivity|]).
  unfold np.compress in Hi.
  destruct (length Ftot =? _); [|discriminate]. injection Hi as <-.
  exists m. split; [|reflexivity].
  rewrite <- Hm. rewrite !map_map. reflexivity.
Qed.

Lemma move_p_updates_positions_witness :
  exists s' c,
    DISTMESH.move_p (W := demo) crowded_session
                    [[0; 0]; [0.5; 0]; [0; 0.5]]%float = Ok (s', c)
    /\ (forall i q,
           nth_error (moved crowded_session [[0; 0]; [0.5; 0]; [0; 0.5]]%float)
                     i = Some q ->
           nth_error (DISTMESH.p s') i
           = Some (if (0 <? circle q)%float
                   then vsub q (edge_project (World := demo) circle q)
                   else q))
    /\ length (DISTMESH.p s') = 3
    /\ c = true.
Proof.
  assert (H : exists s' c,
             DISTMESH.move_p (W := demo) crowded_session
                             [[0; 0]; [0.5; 0]; [0; 0.5]]%float = Ok (s', c)
             /\ c = true).
  { do 2 eexists. split; vm_compute; reflexivity. }
  destruct H as (s' & c & H & Hc). exists s', c.
  destruct (move_p_updates_positions demo crowded_session s'
              [[0; 0]; [0.5; 0]; [0; 0.5]]%float c eq_refl H)
    as (Hpos & Hlen & _).
  split; [exact H|]. split; [exact Hpos|]. split; [exact Hlen | exact Hc].
Defined.

(** ** The relaxation driver, continued *)



(** X16. With an iteration cap that is not positive the loop body never
    runs: [build] returns the Point Set and the Simplex Set of the session
    the constructor made. *)
Theorem build_without_iterations (W : World) (fd fh : point -> float)
        (pfix bbox : option np.ndarray) (h0 : float) (freq : Z)
        (dptol ttol Fscale deltat : float) (maxiter : Z) (g g' : rng)
        (dm0 : DISTMESH.self) :
  (maxiter <= 0)%Z ->
  DISTMESH.__init__ fd fh h0 pfix bbox freq dptol ttol Fscale deltat g
  = Ok (dm0, g') ->
  build fd fh pfix bbox h0 freq dptol ttol Fscale deltat maxiter g
  = Ok (DISTMESH.p dm0, DISTMESH.t dm0).
Proof.
  intros Hcap Hinit. unfold build. rewrite Hinit. cbn [bind].
  replace (Z.to_nat maxiter) with 0 by lia. cbn [relax bind].
  apply init_inv in Hinit. destruct Hinit as (s0 & pts & Ht0 & _).
  rewrite (triangulate_again _ _ Ht0). reflexivity.
Qed.

Lemma build_without_iterations_witness :
  exists dm0 g',
    DISTMESH.__init__ (W := demo) circle area_uniform 1 None
                      (Some [[0; 0]; [2; 1]]%float) 30 0.001 0.1 1.2 0.2 0
    = Ok (dm0, g')
    /\ build (W := demo) circle area_uniform None
             (Some [[0; 0]; [2; 1]]%float) 1 30 0.001 0.1 1.2 0.2 0 0
       = Ok (DISTMESH.p dm0, DISTMESH.t dm0).
Proof.
  assert (H : exists dm0 g',
             DISTMESH.__init__ (W := demo) circle area_uniform 1 None
                               (Some [[0; 0]; [2; 1]]%float)
                               30 0.001 0.1 1.2 0.2 0 = Ok (dm0, g')).
  { do 2 eexists. vm_compute. reflexivity. }
  destruct H as (dm0 & g' & H). exists dm0, g'. split; [exact H|].
  apply (build_without_iterations demo circle area_uniform None
           (Some [[0; 0]; [2; 1]]%float) 1 30 0.001 0.1 1.2 0.2 0 0 g' dm0);
    [lia | exact H].
Defined.

(** ** The force model, continued *)

Lemma alter_forall {A : Type} (P : A -> Prop) (f : A -> A) (i : nat)
      (l : list A) :
  (forall x, P x -> P (f x)) -> Forall P l -> Forall P (alter f i l).
Proof.
  intros Hf H. revert i.
  induction H as [|x l Hx Hl IH]; intros [|i]; simpl; constructor; auto.
Qed.

Lemma accumulate_ok (n d : nat) (entries : list (nat * nat * float)) :
  forall (acc : result np.ndarray) (M : np.ndarray),
    fold_left (accumulate n d) entries acc = Ok M ->
    exists M0,
      acc = Ok M0
      /\ (Forall (fun r => length r = d) M0 -> Forall (fun r => length r = d) M)
      /\ Forall (fun e => fst (fst e) < n) entries.
Proof.
  induction entries as [|e entries IH]; simpl; intros acc M H.
  - exists M. auto.
  - apply IH in H. destruct H as (M1 & H1 & Hw & Hidx).
    unfold accumulate in H1. bind_as H1 M0 HM0.
    destruct e as [[r c] v].
    destruct ((r <? n) && (c <? d)) eqn:E; [|discriminate].
    injection H1 as <-. exists M0. split; [assumption|]. split.
    + intros H0. apply Hw. apply alter_forall; [|exact H0].
      intros row Hrow. now rewrite alter_length.
    + constructor; [|exact Hidx]. simpl.
      apply andb_true_iff in E. destruct E as [E _]. now apply Nat.ltb_lt.
Qed.

Lemma accumulate_raise (n d : nat) (entries : list (nat * nat * float)) :
  forall (acc : result np.ndarray) (e : exn),
    fold_left (accumulate n d) entries acc = Raise e ->
    acc = Raise e \/ e = ValueError.
Proof.
  induction entries as [|x entries IH]; simpl; intros acc e H; [auto|].
  apply IH in H. destruct H as [H|H]; [|auto].
  unfold accumulate in H. destruct acc as [M|e']; cbn [bind] in H.
  - destruct x as [[r c] v]. destruct ((r <? n) && (c <? d)); [discriminate|].
    injection H as <-. auto.
  - auto.
Qed.

Lemma broadcast_raise {A B C : Type} (f : A -> B -> C) (xs : list A)
      (ys : list B) (e : exn) :
  np.broadcast f xs ys = Raise e -> e = ValueError.
Proof.
  unfold np.broadcast. destruct (length xs =? length ys); [discriminate|].
  destruct xs as [|x [|x' xs]]; destruct ys as [|y [|y' ys]];
    try discriminate; now intros [= <-].
Qed.

Lemma map_fst_combine {A B : Type} (l1 : list A) (l2 : list B) :
  length l1 = length l2 -> map fst (combine l1 l2) = l1.
Proof.
  revert l2. induction l1 as [|x l1 IH]; intros [|y l2] H; simpl in *;
    try discriminate; [reflexivity|]. f_equal. apply IH. lia.
Qed.

Lemma csr_toarray_ok (data : list float) (rows cols : list nat) (n d : nat)
      (M : np.ndarray) :
  csr_toarray data rows cols n d = Ok M ->
  length M = n
  /\ Forall (fun r => length r = d) M
  /\ Forall (fun i => i < n) rows.
Proof.
  unfold csr_toarray.
  destruct ((length data =? length rows) && (length data =? length cols))
    eqn:E; [|discriminate].
  apply andb_true_iff in E. destruct E as [E1 E2].
  apply Nat.eqb_eq in E1. apply Nat.eqb_eq in E2. intros H.
  pose proof (accumulate_length _ _ _ _ _ H) as (M0 & [= <-] & Hlen).
  apply accumulate_ok in H. destruct H as (M1 & [= <-] & Hw & Hidx).
  split; [now rewrite Hlen, repeat_length|]. split.
  - apply Hw. apply Forall_forall. intros r Hr. apply repeat_spec in Hr.
    subst r. apply repeat_length.
  - assert (Hrows : map (fun e => fst (fst e))
                        (combine (combine rows cols) data) = rows).
    { rewrite <- (map_map fst fst).
      rewrite map_fst_combine by (rewrite length_combine; lia).
      apply map_fst_combine. lia. }
    rewrite <- Hrows. apply Forall_map. exact Hidx.
Qed.

Lemma bar_force_inv (s : DISTMESH.self) (L L0 : list float)
      (barvec Ftot : np.ndarray) :
  DISTMESH.bar_force s L L0 barvec = Ok Ftot ->
  exists M,
    Ftot = zero_rows (length (DISTMESH.pfix s)) M
    /\ length M = DISTMESH.N s
    /\ Forall (fun r => length r = DISTMESH.Ndim s) M
    /\ Forall (fun b => fst b < DISTMESH.N s /\ snd b < DISTMESH.N s)
              (DISTMESH.bars s).
Proof.
  unfold DISTMESH.bar_force. intros H.
  bind_as H F HF. bind_as H unit Hu. bind_as H Fvec HFvec. bind_as H M HM.
  injection H as <-. exists M. split; [reflexivity|].
  apply csr_toarray_ok in HM. destruct HM as (Hlen & Hw & Hidx).
  split; [exact Hlen|]. split; [exact Hw|].
  rewrite Forall_forall in Hidx. apply Forall_forall. intros b Hb.
  assert (Hin : forall i, In i [fst b; snd b] ->
                          In i (concat
                                  (if DISTMESH.Ndim s =? 2
                                   then map (fun b => [fst b; fst b; snd b; snd b])
                                            (DISTMESH.bars s)
                                   else map (fun b => [fst b; fst b; fst b;
                                                       snd b; snd b; snd b])
                                            (DISTMESH.bars s)))).
  { intros i Hi. apply in_concat.
    destruct (DISTMESH.Ndim s =? 2); eexists;
      (split; [apply in_map; exact Hb|]); simpl in *; tauto. }
  split; apply Hidx, Hin; simpl; auto.
Qed.

(** X17. The force array [bar_force] returns has one row per point and one
    column per dimension, and its first [len(pfix)] rows are zero; it is
    returned only when both endpoints of every bar address a point. *)
Theorem bar_force_shape (s : DISTMESH.self) (L L0 : list float)
        (barvec Ftot : np.ndarray) :
  DISTMESH.bar_force s L L0 barvec = Ok Ftot ->
  length Ftot = DISTMESH.N s
  /\ Forall (fun r => length r = DISTMESH.Ndim s) Ftot
  /\ Forall (Forall (fun x => x = 0%float))
            (firstn (length (DISTMESH.pfix s)) Ftot)
  /\ Forall (fun b => fst b < DISTMESH.N s /\ snd b < DISTMESH.N s)
            (DISTMESH.bars s).
Proof.
  intros H. apply bar_force_inv in H.
  destruct H as (M & -> & Hlen & Hw & Hbars).
  split; [now rewrite zero_rows_length|]. split.
  - unfold zero_rows. apply Forall_app. split.
    + apply Forall_map. apply Forall_forall. intros r Hr.
      rewrite length_map. rewrite Forall_forall in Hw. apply Hw.
      rewrite <- (firstn_skipn (length (DISTMESH.pfix s)) M).
      apply in_or_app. now left.
    + apply Forall_forall. intros r Hr. rewrite Forall_forall in Hw.
      apply Hw. rewrite <- (firstn_skipn (length (DISTMESH.pfix s)) M).
      apply in_or_app. now right.
  - split; [apply zero_rows_fixed | exact Hbars].
Qed.

Lemma bar_force_shape_witness :
  exists L L0 barvec Ftot,
    DISTMESH.bar_length (W := demo) crowded_session = Ok (L, L0, barvec)
    /\ DISTMESH.bar_force crowded_session L L0 barvec = Ok Ftot
    /\ length Ftot = DISTMESH.N crowded_session
    /\ Forall (fun r => length r = DISTMESH.Ndim crowded_session) Ftot
    /\ Forall (Forall (fun x => x = 0%float))
              (firstn (length (DISTMESH.pfix crowded_session)) Ftot)
    /\ Forall (fun b => fst b < DISTMESH.N crowded_session
                        /\ snd b < DISTMESH.N crowded_session)
              (DISTMESH.bars crowded_session).
Proof.
  assert (H : exists L L0 barvec Ftot,
             DISTMESH.bar_length (W := demo) crowded_session
             = Ok (L, L0, barvec)
             /\ DISTMESH.bar_force crowded_session L L0 barvec = Ok Ftot).
  { do 4 eexists. split; vm_compute; reflexivity. }
  destruct H as (L & L0 & barvec & Ftot & HL & HF).
  exists L, L0, barvec, Ftot. split; [exact HL|]. split; [exact HF|].
  exact (bar_force_shape crowded_session L L0 barvec Ftot HF).
Defined.

(** X18. [ValueError] is the only exception [bar_force] raises, and it
    raises it whenever an endpoint of a bar addresses no point. *)
Theorem bar_force_raises_value_error (s : DISTMESH.self) (L L0 : list float)
        (barvec : np.ndarray) :
  (forall e, DISTMESH.bar_force s L L0 barvec = Raise e -> e = ValueError)
  /\ ((exists b, In b (DISTMESH.bars s)
                 /\ (DISTMESH.N s <= fst b \/ DISTMESH.N s <= snd b)) ->
      DISTMESH.bar_force s L L0 barvec = Raise ValueError).
Proof.
  assert (Hraise : forall e, DISTMESH.bar_force s L L0 barvec = Raise e ->
                             e = ValueError).
  { intros e. unfold DISTMESH.bar_force.
    destruct (np.broadcast _ L0 L) as [F|e1] eqn:HF; cbn [bind];
      [|intros [= <-]; eapply broadcast_raise; exact HF].
    destruct (np.broadcast _ barvec L) as [unit|e2] eqn:Hu; cbn [bind];
      [|intros [= <-]; eapply broadcast_raise; exact Hu].
    destruct (np.broadcast vscale F unit) as [Fvec|e3] eqn:HFvec; cbn [bind];
      [|intros [= <-]; eapply broadcast_raise; exact HFvec].
    destruct (csr_toarray _ _ _ _ _) as [M|e4] eqn:HM; cbn [bind];
      [discriminate|].
    intros [= <-]. unfold csr_toarray in HM.
    destruct (_ && _); [|now injection HM as <-].
    apply accumulate_raise in HM. destruct HM as [HM|HM];
      [discriminate | exact HM]. }
  split; [exact Hraise|].
  intros (b & Hb & Hout).
  destruct (DISTMESH.bar_force s L L0 barvec) as [Ftot|e] eqn:H.
  - apply bar_force_inv in H. destruct H as (M & _ & _ & _ & Hbars).
    rewrite Forall_forall in Hbars. specialize (Hbars b Hb). lia.
  - now rewrite (Hraise e eq_refl).
Qed.

Lemma bar_force_raises_value_error_witness :
  DISTMESH.bar_force stray_session [1; 1]%float [1; 1]%float
                     [[1; 0]; [0; 1]]%float
  = Raise ValueError.
Proof.
  apply (proj2 (bar_force_raises_value_error stray_session [1; 1]%float
                  [1; 1]%float [[1; 0]; [0; 1]]%float)).
  exists (0, 5). split; [simpl; auto | simpl; lia].
Defined.

(** X19. [bar_length] raises [IndexError] as soon as an endpoint of a bar
    addresses no point. *)
Theorem bar_length_checks_bars (W : World) (s : DISTMESH.self) :
  ~ valid_bars (DISTMESH.p s) (DISTMESH.bars s) ->
  DISTMESH.bar_length s = Raise IndexError.
Proof.
  intros Hbad. unfold DISTMESH.bar_length.
  destruct (take_cases [] (DISTMESH.p s) (map fst (DISTMESH.bars s)))
    as [[Hv1 Ht1] | [_ Ht1]]; rewrite Ht1; cbn [bind]; [|reflexivity].
  destruct (take_cases [] (DISTMESH.p s) (map snd (DISTMESH.bars s)))
    as [[Hv2 Ht2] | [_ Ht2]]; rewrite Ht2; cbn [bind]; [|reflexivity].
  exfalso. apply Hbad. unfold valid_bars.
  rewrite Forall_forall in *. intros b Hb. split.
  - apply Hv1. now apply in_map.
  - apply Hv2. now apply in_map.
Qed.

Lemma bar_length_checks_bars_witness :
  DISTMESH.bar_length (W := demo) stray_session = Raise IndexError.
Proof.
  apply (bar_length_checks_bars demo stray_session).
  unfold valid_bars. intros H. rewrite Forall_forall in H.
  specialize (H (0, 5) (or_intror (or_introl eq_refl))). simpl in H. lia.
Defined.

(** ** The returned mesh *)

(** X20. Every simplex that [build] returns addresses rows of the returned
    Point Set only, and its centroid is strictly inside the domain:
    [fd(centroid) < -geps] with [geps = 0.001 * h0]. *)
Theorem build_returns_interior_simplices (W : World) (fd fh : point -> float)
        (pfix bbox : option np.ndarray) (h0 : float) (freq : Z)
        (dptol ttol Fscale deltat : float) (maxiter : Z) (g : rng)
        (p : np.ndarray) (t : list (list nat)) :
  build fd fh pfix bbox h0 freq dptol ttol Fscale deltat maxiter g = Ok (p, t) ->
  valid_simplices p t
  /\ Forall (fun simplex =>
               keeps_simplex p fd (0.001 * h0)%float simplex = true) t.
Proof.
  intros H. apply build_inv in H.
  destruct H as (dm0 & g' & dm & dm' & Hinit & Hrelax & Htri & -> & ->).
  pose proof (relax_config _ _ _ _ _ Hrelax) as (C1 & _ & _ & C4 & _).
  apply init_inv in Hinit.
  destruct Hinit as (s0 & pts & Ht0 & _ & _ & Hfd & _ & Hg & _).
  apply triangulate_config in Ht0. destruct Ht0 as (T1 & _ & _ & T4 & _).
  apply triangulate_inv in Htri.
  destruct Htri as (pold' & t' & per & _ & Hd & _ & ->). simpl.
  assert (Hfd' : DISTMESH.fd dm = fd) by congruence.
  assert (Hg' : DISTMESH.geps dm = (0.001 * h0)%float) by congruence.
  rewrite Hfd', Hg' in Hd.
  destruct (delaunay_inv _ _ _ _ Hd) as (tri & Htri & Hv & Hsub).
  rewrite (delaunay_filter _ fd (0.001 * h0)%float _ Htri Hv) in Hd.
  injection Hd as <-. split.
  - unfold valid_simplices in *. rewrite Forall_forall in *.
    intros x Hx. apply filter_In in Hx. now apply Hv.
  - apply Forall_forall. intros x Hx. now apply filter_In in Hx.
Qed.

Lemma build_returns_interior_simplices_witness :
  exists p t,
    build (W := demo) circle area_uniform None (Some [[0; 0]; [2; 1]]%float)
          1 30 0.001 0.1 1.2 0.2 2 0 = Ok (p, t)
    /\ valid_simplices p t
    /\ Forall (fun simplex =>
                 keeps_simplex (W := demo) p circle (0.001 * 1)%float simplex
                 = true) t.
Proof.
  assert (H : exists p t,
             build (W := demo) circle area_uniform None
                   (Some [[0; 0]; [2; 1]]%float) 1 30 0.001 0.1 1.2 0.2 2 0
             = Ok (p, t)).
  { do 2 eexists. vm_compute. reflexivity. }
  destruct H as (p & t & H). exists p, t. split; [exact H|].
  exact (build_returns_interior_simplices demo _ _ _ _ _ _ _ _ _ _ _ _ _ _ H).
Defined.

Lemma build_point_count_bounds_witness :
  exists p t dm0 g',
    build (W := demo) circle area_uniform (Some [[2; 0]]%float)
          (Some [[0; 0]; [1; 1]]%float) 1 30 0.001 0.1 1.2 0.2 3 0
    = Ok (p, t)
    /\ DISTMESH.__init__ (W := demo) circle area_uniform 1
                         (Some [[2; 0]]%float) (Some [[0; 0]; [1; 1]]%float)
                         30 0.001 0.1 1.2 0.2 0 = Ok (dm0, g')
    /\ length [[2; 0]]%float <= length p
    /\ length p <= length (DISTMESH.p dm0).
Proof.
  assert (H : exists p t,
             build (W := demo) circle area_uniform (Some [[2; 0]]%float)
                   (Some [[0; 0]; [1; 1]]%float) 1 30 0.001 0.1 1.2 0.2 3 0
             = Ok (p, t)).
  { do 2 eexists. vm_compute. reflexivity. }
  destruct H as (p & t & H).
  destruct (build_point_count_bounds demo _ _ _ _ _ _ _ _ _ _ _ _ _ _ H)
    as (dm0 & g' & R).
  exists p, t, dm0, g'. split; [exact H | exact R].
Defined.

(** ** Session construction: the random source and the spacing *)

(** X21. A successful constructor consults the random source once, for as
    many draws as there are lattice points that the distance field keeps,
    and hands back the state that call leaves. *)
Theorem init_draws_once (W : World) (fd fh : point -> float)
        (h0 : float) (pfix bbox : option np.ndarray) (freq : Z)
        (dptol ttol Fscale deltat : float) (g g' : rng) (s : DISTMESH.self) :
  DISTMESH.__init__ fd fh h0 pfix bbox freq dptol ttol Fscale deltat g
  = Ok (s, g') ->
  exists pts,
    lattice h0 bbox = Ok pts
    /\ g' = snd (rand (length (inside fd h0 pts)) g).
Proof.
  unfold DISTMESH.__init__, lattice, inside. intros H.
  bind_as H Ndim HNdim. rewrite HNdim. cbn [bind].
  bind_as H pts Hpts. rewrite Hpts. exists pts. split; [reflexivity|].
  destruct (rand _ g) as [u g1].
  bind_as H r0max Hmax. bind_as H selection Hsel. bind_as H kept Hkept.
  bind_as H s1 Htri. now injection H as _ <-.
Qed.

Lemma init_draws_once_witness :
  exists s g' pts,
    DISTMESH.__init__ (W := demo) circle area_uniform 1 None
                      (Some [[0; 0]; [2; 1]]%float) 30 0.001 0.1 1.2 0.2 0
    = Ok (s, g')
    /\ lattice 1 (Some [[0; 0]; [2; 1]]%float) = Ok pts
    /\ g' = snd (rand (World := demo) (length (inside circle 1 pts)) 0).
Proof.
  assert (H : exists s g',
             DISTMESH.__init__ (W := demo) circle area_uniform 1 None
                               (Some [[0; 0]; [2; 1]]%float)
                               30 0.001 0.1 1.2 0.2 0 = Ok (s, g')).
  { do 2 eexists. vm_compute. reflexivity. }
  destruct H as (s & g' & H).
  destruct (init_draws_once demo _ _ _ _ _ _ _ _ _ _ _ _ _ H) as (pts & R).
  exists s, g', pts. split; [exact H | exact R].
Defined.



(** ** Closed runs of the further properties *)

Lemma demo_sums_zeros : sums_zeros demo.
Proof.
  intros l Hl. simpl. unfold sum_seq.
  induction l as [|y l IH]; simpl; [reflexivity|].
  apply Forall_cons_iff in Hl. destruct Hl as [-> Hl].
  change (0 + 0)%float with 0%float. now apply IH.
Qed.

Lemma crowded_session_triangulates :
  exists s', DISTMESH.triangulate (W := demo) crowded_session = Ok s'.
Proof. eexists. vm_compute. reflexivity. Qed.

Lemma init_builds_point_set_witness :
  exists s g' pts,
    DISTMESH.__init__ (W := demo) circle area_uniform 1 (Some [[2; 0]]%float)
                      (Some [[0; 0]; [1; 1]]%float) 30 0.001 0.1 1.2 0.2 0
    = Ok (s, g')
    /\ lattice 1 (Some [[0; 0]; [1; 1]]%float) = Ok pts
    /\ DISTMESH.pfix s = [[2; 0]]%float
    /\ DISTMESH.nfix s = length (DISTMESH.pfix s)
    /\ DISTMESH.N s = length (DISTMESH.p s)
    /\ firstn (DISTMESH.nfix s) (DISTMESH.p s) = DISTMESH.pfix s
    /\ Forall (fun q => In q pts
                        /\ (circle q <? 0.001 * 1)%float = true
                        /\ clear_of (W := demo) (DISTMESH.pfix s)
                                    (0.001 * 1)%float q = true)
              (skipn (DISTMESH.nfix s) (DISTMESH.p s))
    /\ DISTMESH.pold s = DISTMESH.p s
    /\ (forall i j, In (i, j) (DISTMESH.edge_combinations s) <->
                    i < j <= DISTMESH.Ndim s).
Proof.
  assert (H : exists s g',
             DISTMESH.__init__ (W := demo) circle area_uniform 1
                               (Some [[2; 0]]%float)
                               (Some [[0; 0]; [1; 1]]%float)
                               30 0.001 0.1 1.2 0.2 0 = Ok (s, g')).
  { do 2 eexists. vm_compute. reflexivity. }
  destruct H as (s & g' & H).
  destruct (init_builds_point_set demo _ _ _ _ _ _ _ _ _ _ _ _ _ H)
    as (pts & R).
  exists s, g', pts. split; [exact H | exact R].
Defined.

Lemma delaunay_keeps_interior_simplices_witness :
  DISTMESH._delaunay (W := demo) (DISTMESH.p crowded_session) circle 0.001
  = Ok (filter (keeps_simplex (W := demo) (DISTMESH.p crowded_session)
                              circle 0.001)
               [[0; 1; 2]]).
Proof.
  apply (proj1 (delaunay_keeps_interior_simplices demo
                  (DISTMESH.p crowded_session) circle 0.001 [[0; 1; 2]]
                  eq_refl)).
  repeat constructor; simpl; lia.
Defined.

Lemma triangulate_bars_are_simplex_edges_witness :
  exists s',
    DISTMESH.triangulate (W := demo) crowded_session = Ok s'
    /\ StronglySorted (holds np.pair_ltb) (DISTMESH.bars s')
    /\ (forall b, In b (DISTMESH.bars s') <->
                  exists simplex ij a c,
                    In simplex (DISTMESH.t s')
                    /\ In ij (DISTMESH.edge_combinations crowded_session)
                    /\ nth_error simplex (fst ij) = Some a
                    /\ nth_error simplex (snd ij) = Some c
                    /\ b = sort_pair (a, c)).
Proof.
  destruct crowded_session_triangulates as (s' & H).
  exists s'. split; [exact H|].
  exact (triangulate_bars_are_simplex_edges demo crowded_session s' H).
Defined.

Lemma triangulate_is_idempotent_witness :
  exists s',
    DISTMESH.triangulate (W := demo) crowded_session = Ok s'
    /\ DISTMESH.triangulate (W := demo) s' = Ok s'.
Proof.
  destruct crowded_session_triangulates as (s' & H).
  exists s'. split; [exact H|].
  exact (triangulate_is_idempotent demo crowded_session s' H).
Defined.

Lemma no_retriangulation_without_drift_witness :
  exists s',
    DISTMESH.triangulate (W := demo) crowded_session = Ok s'
    /\ DISTMESH.is_retriangulate (W := demo) s'
       = Ok (DISTMESH.h0 crowded_session * DISTMESH.ttol crowded_session <? 0)%float.
Proof.
  destruct crowded_session_triangulates as (s' & H).
  exists s'. split; [exact H|].
  apply (no_retriangulation_without_drift demo crowded_session s').
  - exact demo_sums_zeros.
  - reflexivity.
  - discriminate.
  - repeat constructor.
  - exact H.
Defined.

Lemma is_retriangulate_needs_points_witness :
  exists b, DISTMESH.is_retriangulate (W := demo) crowded_session = Ok b.
Proof.
  apply (proj2 (is_retriangulate_needs_points demo crowded_session eq_refl)).
  discriminate.
Defined.
